(** * Input.tsx and ExperimentalFeatures.tsx: a shallow embedding

    Two React components of the Actual budget client are embedded here, the
    first of them twice:

    - [InputTsx]: packages/component-library/src/Input.tsx, the styled text
      input with its Firefox cursor-positioning workaround, over exact
      arithmetic and with caller functions that return;
    - [InputFull]: the same component with binary64 arithmetic and caller
      functions that may throw and may change the input;
    - [ExperimentalTsx]: the settings panel that shows the experimental
      feature toggles.

    JavaScript closures are defunctionalised (a constructor per closure of
    the source, carrying the captured variables, and an interpreter that runs
    it), browser calls run in a state-and-exception monad over an abstract
    DOM node, and a React element's props are a finite map from prop names to
    values. *)

From Stdlib Require Import Ascii String QArith Qround Qpower.
From stdpp Require Import gmap strings list fin_maps.

Open Scope string_scope.
Open Scope list_scope.
Set Warnings "-register-all".

(** ** JavaScript values shared by both components *)

(** Exceptions, by the name JavaScript gives them. *)
Inductive Exn : Type :=
| DOMException (name : string)
| TypeError (message : string).

(** The completion of a JavaScript computation: normal, or abrupt by
    [throw]. *)
Inductive result (A : Type) : Type :=
| Return (a : A)
| Throw (e : Exn).
Arguments Return {A} a.
Arguments Throw {A} e.

(** [try { body } catch { handler }] on pure computations. *)
Definition try_catch_pure {A} (body : result A) (handler : result A) : result A :=
  match body with
  | Return a => Return a
  | Throw _ => handler
  end.

(** [String(b)] for a boolean [b]. *)
Definition String_of_bool (b : bool) : string :=
  if b then "true" else "false".

(** [s.toLowerCase()]: the ASCII capitals are mapped to their small letters,
    every other character is kept. *)
Definition lower_ascii (c : ascii) : ascii :=
  let n := nat_of_ascii c in
  if (65 <=? n)%nat && (n <=? 90)%nat then ascii_of_nat (n + 32) else c.

Fixpoint toLowerCase (s : string) : string :=
  match s with
  | EmptyString => EmptyString
  | String c s' => String (lower_ascii c) (toLowerCase s')
  end.

(** [s.includes(sub)]. *)
Fixpoint includes (s sub : string) : bool :=
  String.prefix sub s ||
  match s with
  | EmptyString => false
  | String _ s' => includes s' sub
  end.

(** ** JavaScript numbers

    Finite numbers are exact rationals; the two infinities and NaN are kept
    because a division can produce them.  The operations of this section
    are exact; those of [InputFull] round to binary64.  The sign of zero is
    not modelled. *)
Inductive number : Type :=
| Num (q : Q)
| Infinity (negative : bool)
| NaN.

Definition Qltb (a b : Q) : bool := negb (Qle_bool b a).

(** [Math.min(a, b)] and [Math.max(a, b)] on finite numbers. *)
Definition Math_min (a b : Q) : Q := if Qle_bool a b then a else b.
Definition Math_max (a b : Q) : Q := if Qle_bool a b then b else a.

(** [a / b] on finite numbers. *)
Definition js_div (a b : Q) : number :=
  if Qeq_bool b 0 then
    if Qeq_bool a 0 then NaN else Infinity (Qltb a 0)
  else Num (a / b)%Q.

(** [r * n] for a finite [n]. *)
Definition js_mul (r : number) (n : Q) : number :=
  match r with
  | Num a => Num (a * n)%Q
  | Infinity s => if Qeq_bool n 0 then NaN else Infinity (xorb s (Qltb n 0))
  | NaN => NaN
  end.

(** [Math.round(r)]: the nearest integer, halves rounded up. *)
Definition Math_round (r : number) : number :=
  match r with
  | Num a => Num (inject_Z (Qfloor (a + (1 # 2))))
  | Infinity s => Infinity s
  | NaN => NaN
  end.

Module InputTsx.

(** *** Firefox detection *)

(** The global [navigator], when there is one: reading its [userAgent] may
    throw, and may give [undefined]. *)
Record Navigator : Type := {
  userAgent : result (option string);
}.

(** The initialiser of the module-level constant [isFirefoxBrowser]:
<<
  (() => {
    if (typeof navigator === 'undefined') return false;
    try {
      const userAgent = navigator.userAgent || '';
      return userAgent.toLowerCase().includes('firefox');
    } catch { return false; }
  })()
>> *)
Definition isFirefoxBrowser_init (navigator : option Navigator) : result bool :=
  match navigator with
  | None => Return false
  | Some nav =>
      try_catch_pure
        (match userAgent nav with
         | Throw e => Throw e
         | Return ua =>
             let userAgent := match ua with
                              | Some s => if String.eqb s "" then "" else s
                              | None => ""
                              end in
             Return (includes (toLowerCase userAgent) "firefox")
         end)
        (Return false)
  end.

(** *** Cursor position from the click offset *)

(** [input.value?.length || 0] *)
Definition value_length (value : string) : nat :=
  let n := String.length value in
  if (n =? 0)%nat then 0%nat else n.

(** The body of the deferred callback up to the [try]:
<<
  const relativeX = Math.max(0, Math.min(x, containerWidth));
  const textRatio = textWidth > 0 ? relativeX / containerWidth : 0;
  const cursorPos = Math.round(textRatio * (input.value?.length || 0));
>> *)
Definition cursorPos (x : Q) (textWidth containerWidth : Z) (value : string)
  : number :=
  let relativeX := Math_max 0 (Math_min x (inject_Z containerWidth)) in
  let textRatio :=
    if (0 <? textWidth)%Z then js_div relativeX (inject_Z containerWidth)
    else Num 0 in
  Math_round (js_mul textRatio (inject_Z (Z.of_nat (value_length value)))).

(** *** The DOM node and the browser calls the component makes *)

(** The part of [HTMLInputElement] that Input.tsx uses.  The node's state is
    abstract; [dom_setSelectionRange] may throw (it does on input types that
    have no selection), [dom_focus] never does. *)
Class Browser (Node : Type) : Type := {
  dom_value : Node -> string;
  dom_scrollWidth : Node -> Z;
  dom_clientWidth : Node -> Z;
  dom_rect_left : Node -> Q;
  dom_setSelectionRange : number -> number -> Node -> Exn + Node;
  dom_focus : Node -> Node;
}.

(** React's synthetic events, with the fields the handlers read;
    [e.currentTarget] is the node of the world the handler runs in. *)
Record MouseEvent : Type := { clientX : Q }.
Record KeyboardEvent : Type := { key : string }.

Inductive Event : Type :=
| EMouse (e : MouseEvent)
| EKeyboard (e : KeyboardEvent)
| EFocus
| EChange.

(** A function supplied by the caller of [Input]; what it does is the
    caller's business, the component only calls it. *)
Inductive Callback : Type := Function (id : nat).

(** A prop value: a function, or anything else (strings such as
    [placeholder] or [type]). *)
Inductive PropValue : Type :=
| Fn (f : Callback)
| Other (s : string).

Inductive Arg : Type :=
| AString (s : string)
| AEvent (e : Event).

(** The arrow function handed to [setTimeout] in [handleClick]; it captures
    [x] (and [input], the node itself). *)
Inductive Closure : Type := CursorFix (x : Q).

Record Timer : Type := { callback : Closure; delay : Z }.

(** What the component does to the outside, in order. *)
Inductive Call : Type :=
| Call_getBoundingClientRect
| Call_setTimeout (c : Closure) (ms : Z)
| Call_setSelectionRange (selectionStart selectionEnd : number)
| Call_focus
| Call_prop (slot : string) (f : Callback) (args : list Arg).

Section World.
Context {Node : Type} `{Browser Node}.

(** The state a handler runs in: the input's DOM node, the timers that are
    pending, and the calls made so far (oldest first). *)
Record World : Type := {
  node : Node;
  timers : list Timer;
  calls : list Call;
}.

(** Computations: state passing, with the state kept when one throws. *)
Definition M (A : Type) : Type := World -> result A * World.

Definition ret {A} (a : A) : M A := fun w => (Return a, w).

Definition bind {A B} (m : M A) (k : A -> M B) : M B :=
  fun w => match m w with
           | (Return a, w') => k a w'
           | (Throw e, w') => (Throw e, w')
           end.

Definition try_catch {A} (body handler : M A) : M A :=
  fun w => match body w with
           | (Return a, w') => (Return a, w')
           | (Throw _, w') => handler w'
           end.

Definition log (c : Call) : M unit :=
  fun w => (Return tt,
            {| node := node w; timers := timers w; calls := calls w ++ [c] |}).

Definition currentTarget : M Node := fun w => (Return (node w), w).

(** [input.getBoundingClientRect()], of which only [left] is read. *)
Definition getBoundingClientRect : M Q :=
  bind (log Call_getBoundingClientRect) (fun _ =>
  bind currentTarget (fun input => ret (dom_rect_left input))).

(** [setTimeout(c, ms)]; the timer id it returns is dropped by the source. *)
Definition setTimeout (c : Closure) (ms : Z) : M unit :=
  bind (log (Call_setTimeout c ms)) (fun _ w =>
    (Return tt,
     {| node := node w;
        timers := timers w ++ [{| callback := c; delay := ms |}];
        calls := calls w |})).

(** [input.setSelectionRange(s, e)] *)
Definition setSelectionRange (s e : number) : M unit :=
  bind (log (Call_setSelectionRange s e)) (fun _ w =>
    match dom_setSelectionRange s e (node w) with
    | inl ex => (Throw ex, w)
    | inr n' =>
        (Return tt, {| node := n'; timers := timers w; calls := calls w |})
    end).

(** [input.focus()] *)
Definition focus : M unit :=
  bind (log Call_focus) (fun _ w =>
    (Return tt,
     {| node := dom_focus (node w); timers := timers w; calls := calls w |})).

(** [f?.(args)] for a prop [f] typed as an optional function: the call is
    recorded when the prop is a function, and nothing happens when it is
    absent.  (The callee is taken to return.) *)
Definition call_optional (slot : string) (f : option PropValue)
    (args : list Arg) : M unit :=
  match f with
  | Some (Fn g) => log (Call_prop slot g args)
  | _ => ret tt
  end.

(** Truthiness of a prop typed as an optional function. *)
Definition provided (f : option PropValue) : bool :=
  match f with
  | Some (Fn _) => true
  | _ => false
  end.

(** *** The component *)

(** The deferred callback of [handleClick] (lines 85-102):
<<
  () => {
    if (input) {
      const textWidth = input.scrollWidth;
      const containerWidth = input.clientWidth;
      ...
      try { input.setSelectionRange(cursorPos, cursorPos); }
      catch { input.focus(); }
    }
  }
>>
    [input] is the event's current target, which is never null. *)
Definition run_closure (c : Closure) : M unit :=
  match c with
  | CursorFix x =>
      bind currentTarget (fun input =>
        let textWidth := dom_scrollWidth input in
        let containerWidth := dom_clientWidth input in
        let pos := cursorPos x textWidth containerWidth (dom_value input) in
        try_catch (setSelectionRange pos pos) focus)
  end.

(** The value the module-level constant [isFirefoxBrowser] took when the
    module was loaded. *)
Variable isFirefoxBrowser : bool.

(** [handleClick] (lines 78-107); [props] is the rest object of the
    destructured parameter. *)
Definition handleClick (props : gmap string PropValue) (e : MouseEvent)
  : M unit :=
  bind (if isFirefoxBrowser then
          bind getBoundingClientRect (fun rect_left =>
            let x := (clientX e - rect_left)%Q in
            setTimeout (CursorFix x) 0)
        else ret tt) (fun _ =>
  call_optional "onClick" (props !! "onClick") [AEvent (EMouse e)]).

(** The [onKeyUp] arrow function (lines 127-137). *)
Definition onKeyUp (props : gmap string PropValue)
    (onEnter onEscape : option PropValue) (e : KeyboardEvent) : M unit :=
  bind (call_optional "onKeyUp" (props !! "onKeyUp") [AEvent (EKeyboard e)])
    (fun _ =>
  bind (if String.eqb (key e) "Enter" && provided onEnter then
          bind currentTarget (fun t =>
            call_optional "onEnter" onEnter
              [AString (dom_value t); AEvent (EKeyboard e)])
        else ret tt) (fun _ =>
  if String.eqb (key e) "Escape" && provided onEscape then
    bind currentTarget (fun t =>
      call_optional "onEscape" onEscape
        [AString (dom_value t); AEvent (EKeyboard e)])
  else ret tt)).

(** The [onBlur] arrow function (lines 138-141). *)
Definition onBlur (props : gmap string PropValue)
    (onUpdate : option PropValue) : M unit :=
  bind (bind currentTarget (fun t =>
          call_optional "onUpdate" onUpdate [AString (dom_value t); AEvent EFocus]))
    (fun _ => call_optional "onBlur" (props !! "onBlur") [AEvent EFocus]).

(** The [onChange] arrow function (lines 142-145). *)
Definition onChange (props : gmap string PropValue)
    (onChangeValue : option PropValue) : M unit :=
  bind (bind currentTarget (fun t =>
          call_optional "onChangeValue" onChangeValue
            [AString (dom_value t); AEvent EChange]))
    (fun _ => call_optional "onChange" (props !! "onChange") [AEvent EChange]).

End World.

(** *** What [Input] renders *)

(** The four arrow functions [Input] creates, each with the variables it
    captures. *)
Inductive OwnHandler : Type :=
| H_handleClick (props : gmap string PropValue)
| H_onKeyUp (props : gmap string PropValue) (onEnter onEscape : option PropValue)
| H_onBlur (props : gmap string PropValue) (onUpdate : option PropValue)
| H_onChange (props : gmap string PropValue) (onChangeValue : option PropValue).

(** A prop of the rendered [ReactAriaInput]. *)
Inductive Rendered : Type :=
| Passed (v : PropValue)
| RefCallback (ref : option PropValue)
| ClassName (className : option PropValue)
| Handler (h : OwnHandler).

(** The names the parameter of [Input] is destructured by; the rest object
    [props] holds every other key. *)
Definition rest_props (all : gmap string PropValue) : gmap string PropValue :=
  delete "className" (delete "onUpdate" (delete "onChangeValue"
    (delete "onEscape" (delete "onEnter" (delete "ref" all))))).

(** [Input] (lines 66-148): the props object of the [ReactAriaInput] it
    returns, built in the order of the JSX attributes, later ones
    overriding earlier ones. *)
Definition Input (all : gmap string PropValue) : gmap string Rendered :=
  let ref := all !! "ref" in
  let onEnter := all !! "onEnter" in
  let onEscape := all !! "onEscape" in
  let onChangeValue := all !! "onChangeValue" in
  let onUpdate := all !! "onUpdate" in
  let className := all !! "className" in
  let props := rest_props all in
  let attrs0 : gmap string Rendered :=
    <["className" := ClassName className]> (<["ref" := RefCallback ref]> ∅) in
  let spread : gmap string Rendered := (Passed <$> props) ∪ attrs0 in
  <["onChange" := Handler (H_onChange props onChangeValue)]>
    (<["onBlur" := Handler (H_onBlur props onUpdate)]>
      (<["onKeyUp" := Handler (H_onKeyUp props onEnter onEscape)]>
        (<["onClick" := Handler (H_handleClick props)]> spread))).

Section Dispatch.
Context {Node : Type} `{Browser Node}.
Variable isFirefoxBrowser : bool.

(** Running one of [Input]'s handlers on an event of its kind. *)
Definition run_handler (h : OwnHandler) (e : Event) : M unit :=
  match h, e with
  | H_handleClick props, EMouse m => handleClick isFirefoxBrowser props m
  | H_onKeyUp props onEnter onEscape, EKeyboard k =>
      onKeyUp props onEnter onEscape k
  | H_onBlur props onUpdate, EFocus => onBlur props onUpdate
  | H_onChange props onChangeValue, EChange => onChange props onChangeValue
  | _, _ => ret tt
  end.

(** React delivering event [e] to the handler prop [name] of the rendered
    element: one of [Input]'s own handlers, or a function the caller passed
    that went through the spread untouched. *)
Definition fire (element : gmap string Rendered) (name : string) (e : Event)
  : M unit :=
  match element !! name with
  | Some (Handler h) => run_handler h e
  | Some (Passed (Fn f)) => log (Call_prop name f [AEvent e])
  | _ => ret tt
  end.

(** One turn of the browser's timer queue: the oldest pending timer is
    taken off the queue and its callback run. *)
Definition run_next_timer (w : World) : option (result unit * World) :=
  match timers w with
  | [] => None
  | t :: rest =>
      Some (run_closure (callback t)
              {| node := node w; timers := rest; calls := calls w |})
  end.

End Dispatch.

(** The calls made through prop [slot], in order. *)
Fixpoint invocations (slot : string) (tr : list Call)
  : list (Callback * list Arg) :=
  match tr with
  | [] => []
  | Call_prop s f args :: tr' =>
      if String.eqb s slot then (f, args) :: invocations slot tr'
      else invocations slot tr'
  | _ :: tr' => invocations slot tr'
  end.

(** Whether a call writes the selection of the node. *)
Definition writes_selection (c : Call) : bool :=
  match c with
  | Call_setSelectionRange _ _ => true
  | _ => false
  end.

(** A concrete node for examples: [selectable] tells whether the input's
    type has a selection; [setSelectionRange] throws InvalidStateError when
    it has none. *)
Record SimpleNode : Type := {
  sn_value : string;
  sn_scrollWidth : Z;
  sn_clientWidth : Z;
  sn_left : Q;
  sn_selectable : bool;
  sn_selection : option (number * number);
  sn_focused : bool;
}.

#[export] Instance SimpleBrowser : Browser SimpleNode := {
  dom_value := sn_value;
  dom_scrollWidth := sn_scrollWidth;
  dom_clientWidth := sn_clientWidth;
  dom_rect_left := sn_left;
  dom_setSelectionRange s e n :=
    if sn_selectable n then
      inr {| sn_value := sn_value n; sn_scrollWidth := sn_scrollWidth n;
             sn_clientWidth := sn_clientWidth n; sn_left := sn_left n;
             sn_selectable := true; sn_selection := Some (s, e);
             sn_focused := sn_focused n |}
    else inl (DOMException "InvalidStateError");
  dom_focus n :=
    {| sn_value := sn_value n; sn_scrollWidth := sn_scrollWidth n;
       sn_clientWidth := sn_clientWidth n; sn_left := sn_left n;
       sn_selectable := sn_selectable n; sn_selection := sn_selection n;
       sn_focused := true |};
}.

Section Observations.
Context {Node : Type} `{Browser Node}.

(** The calls a computation adds to the world it starts in. *)
Definition made {A} (m : @M Node A) (w : @World Node) : list Call :=
  drop (length (calls w)) (calls (snd (m w))).

(** The timers a computation adds to the queue. *)
Definition scheduled {A} (m : @M Node A) (w : @World Node) : list Timer :=
  drop (length (timers w)) (timers (snd (m w))).

(** The call [f?.(args)] leaves in the trace. *)
Definition call_of (slot : string) (f : option PropValue) (args : list Arg)
  : list Call :=
  match f with
  | Some (Fn g) => [Call_prop slot g args]
  | _ => []
  end.

(** [x] of [handleClick]: the click's offset from the left edge. *)
Definition click_x (e : MouseEvent) (w : @World Node) : Q :=
  (clientX e - dom_rect_left (node w))%Q.

(** The position the deferred callback computes in world [w]. *)
Definition callback_pos (x : Q) (w : @World Node) : number :=
  cursorPos x (dom_scrollWidth (node w)) (dom_clientWidth (node w))
    (dom_value (node w)).

End Observations.

(** The claim that nothing but the [try] of the deferred callback handles a
    failure, read on the Firefox detection: an exception thrown while the
    user agent is read would leave the initialiser. *)
Definition cursor_try_is_only_handler : Prop :=
  forall (nav : Navigator) (e : Exn),
    userAgent nav = Throw e -> isFirefoxBrowser_init (Some nav) = Throw e.

Definition throwing_navigator : Navigator :=
  {| userAgent := Throw (TypeError "userAgent is not available") |}.

Definition firefox_navigator : Navigator :=
  {| userAgent :=
       Return (Some "Mozilla/5.0 (X11; Linux x86_64; rv:120.0) Gecko/20100101 Firefox/120.0") |}.

(** Sample nodes and worlds. *)
Definition text_node : SimpleNode :=
  {| sn_value := "hello"; sn_scrollWidth := 100; sn_clientWidth := 100;
     sn_left := 10; sn_selectable := true; sn_selection := None;
     sn_focused := false |}.

Definition number_node : SimpleNode :=
  {| sn_value := "12345"; sn_scrollWidth := 100; sn_clientWidth := 100;
     sn_left := 10; sn_selectable := false; sn_selection := None;
     sn_focused := false |}.

Definition world_of (n : SimpleNode) : @World SimpleNode :=
  {| node := n; timers := []; calls := [] |}.

Definition sample_props : gmap string PropValue :=
  <["onClick" := Fn (Function 1)]>
    (<["onKeyUp" := Fn (Function 2)]>
      (<["onEnter" := Fn (Function 3)]>
        (<["onBlur" := Fn (Function 4)]>
          (<["onFocus" := Fn (Function 5)]>
            (<["placeholder" := Other "Search"]> ∅))))).

(** *** BigInput and ResponsiveInput *)

Section Variants.
(** Emotion's [cx] applied to a default class and a [className] that is not
    a function; the class [css] made for [BigInput]; and the arrow function
    [renderProps => cx(default, className(renderProps))], named by the
    class and the function it captures. *)
Variable cx : string -> option PropValue -> string.
Variable defaultBigInputClassName : string.
Variable class_function : string -> Callback -> Callback.

Definition bigClassName (className : option PropValue) : PropValue :=
  match className with
  | Some (Fn f) => Fn (class_function defaultBigInputClassName f)
  | other => Other (cx defaultBigInputClassName other)
  end.

(** [BigInput] (lines 158-169): [Input] called with the caller's props and
    the composed class. *)
Definition BigInput (all : gmap string PropValue) : gmap string Rendered :=
  let className := all !! "className" in
  let props := delete "className" all in
  Input (<["className" := bigClassName className]> props).

(** [ResponsiveInput] (lines 171-175); [isNarrowWidth] is what the hook
    [useResponsive] gives. *)
Definition ResponsiveInput (isNarrowWidth : bool)
    (props : gmap string PropValue) : gmap string Rendered :=
  if isNarrowWidth then BigInput props else Input props.

End Variants.

(** *** Several events in a row *)

Section Runs.
Context {Node : Type} `{Browser Node}.
Variable isFirefoxBrowser : bool.

(** The timer queue run for at most [fuel] turns. *)
Fixpoint run_timers (fuel : nat) (w : @World Node) : @World Node :=
  match fuel with
  | O => w
  | S fuel' =>
      match run_next_timer w with
      | None => w
      | Some (_, w') => run_timers fuel' w'
      end
  end.

End Runs.

Definition sample_cx (default : string) (className : option PropValue)
  : string :=
  match className with
  | Some (Other s) => default +:+ " " +:+ s
  | _ => default
  end.

Definition sample_class_function (default : string) (f : Callback)
  : Callback :=
  match f with
  | Function id => Function (S id)
  end.

End InputTsx.

(** * Input.tsx in full: binary64 numbers, caller functions that act

    [InputTsx] above reads the component over exact arithmetic and with
    caller functions that return and touch nothing.  This module drops both
    readings: every arithmetic operation of the source rounds to a binary64
    number, and a function of the caller may throw and may change the state
    it reaches.
    The types of events, props and rendered elements are those of
    [InputTsx]. *)
Module InputFull.
Import InputTsx.

(** *** binary64

    A finite binary64 number is m * 2^e with |m| < 2^53 and
    -1074 <= e <= 971; they are kept as the rationals they are.  [round64]
    is round-to-nearest, ties to even, as every arithmetic operation of
    JavaScript applies it to the exact result. *)
Definition pow2 (k : Z) : Q := (2 ^ k)%Q.

(** The integer part of the binary logarithm of a positive rational. *)
Definition ilog2 (q : Q) : Z :=
  let k := (Z.log2 (Qnum q) - Z.log2 (Zpos (Qden q)))%Z in
  if Qle_bool (pow2 k) q then k else (k - 1)%Z.

(** The nearest integer, an exact half going to the even neighbour. *)
Definition round_half_even (q : Q) : Z :=
  let f := Qfloor q in
  match (q - inject_Z f ?= 1 # 2)%Q with
  | Lt => f
  | Gt => (f + 1)%Z
  | Eq => if Z.even f then f else (f + 1)%Z
  end.

(** Rounding of a positive rational: the spacing of the binary64 numbers
    around [q] is 2^e, with e no lower than -1074 (the subnormal numbers),
    and a result of 2^1024 or more overflows. *)
Definition round64_pos (q : Q) : number :=
  let e := Z.max (-1074) (ilog2 q - 52) in
  let r := (inject_Z (round_half_even (q / pow2 e)) * pow2 e)%Q in
  if Qle_bool (pow2 1024) r then Infinity false else Num r.

Definition number_opp (r : number) : number :=
  match r with
  | Num a => Num (- a)
  | Infinity s => Infinity (negb s)
  | NaN => NaN
  end.

Definition round64 (q : Q) : number :=
  match (q ?= 0)%Q with
  | Eq => Num 0
  | Gt => round64_pos q
  | Lt => number_opp (round64_pos (- q))
  end.

(** [a - b] on finite numbers. *)
Definition js_sub (a b : Q) : number := round64 (a - b).

(** [Math.min(a, b)] and [Math.max(a, b)] with one finite argument. *)
Definition number_min (a : number) (b : Q) : number :=
  match a with
  | Num q => Num (Math_min q b)
  | Infinity true => Infinity true
  | Infinity false => Num b
  | NaN => NaN
  end.

Definition number_max (a : Q) (b : number) : number :=
  match b with
  | Num q => Num (Math_max a q)
  | Infinity false => Infinity false
  | Infinity true => Num a
  | NaN => NaN
  end.

(** [a / b] and [a * n] with a finite right operand. *)
Definition js_div (a : number) (b : Q) : number :=
  match a with
  | Num q =>
      if Qeq_bool b 0 then
        if Qeq_bool q 0 then NaN else Infinity (Qltb q 0)
      else round64 (q / b)
  | Infinity s =>
      if Qeq_bool b 0 then Infinity s else Infinity (xorb s (Qltb b 0))
  | NaN => NaN
  end.

Definition js_mul (r : number) (n : Q) : number :=
  match r with
  | Num a => round64 (a * n)
  | Infinity s => if Qeq_bool n 0 then NaN else Infinity (xorb s (Qltb n 0))
  | NaN => NaN
  end.

(** [Math.max(0, Math.min(x, containerWidth))] (line 91). *)
Definition relativeX (x : number) (containerWidth : Z) : number :=
  number_max 0 (number_min x (inject_Z containerWidth)).

(** Lines 91-93 of the deferred callback, in binary64. *)
Definition cursorPos (x : number) (textWidth containerWidth : Z)
    (value : string) : number :=
  let relativeX := relativeX x containerWidth in
  let textRatio :=
    if (0 <? textWidth)%Z then js_div relativeX (inject_Z containerWidth)
    else Num 0 in
  Math_round (js_mul textRatio (inject_Z (Z.of_nat (value_length value)))).

(** *** The caller's functions *)

(** What a function of the caller does when [Input] calls it: it may
    change the state it can reach, here the state behind the node, and it
    returns or throws.  The timers of [Input] are out of its reach
    ([handleClick] drops the id [setTimeout] returns), and it is taken not
    to deliver a further event to the element while it runs. *)
Class Caller (Node : Type) : Type := {
  call_function : Callback -> list Arg -> Node -> option Exn * Node;
}.

(** The arrow function handed to [setTimeout]; it captures [x]. *)
Inductive Closure : Type := CursorFix (x : number).

Record Timer : Type := { callback : Closure; delay : Z }.

Inductive Call : Type :=
| Call_getBoundingClientRect
| Call_setTimeout (c : Closure) (ms : Z)
| Call_setSelectionRange (selectionStart selectionEnd : number)
| Call_focus
| Call_prop (slot : string) (f : Callback) (args : list Arg).

Section World.
Context {Node : Type} `{Browser Node} `{Caller Node}.

Record World : Type := {
  node : Node;
  timers : list Timer;
  calls : list Call;
}.

Definition M (A : Type) : Type := World -> result A * World.

Definition ret {A} (a : A) : M A := fun w => (Return a, w).

Definition bind {A B} (m : M A) (k : A -> M B) : M B :=
  fun w => match m w with
           | (Return a, w') => k a w'
           | (Throw e, w') => (Throw e, w')
           end.

Definition try_catch {A} (body handler : M A) : M A :=
  fun w => match body w with
           | (Return a, w') => (Return a, w')
           | (Throw _, w') => handler w'
           end.

Definition log (c : Call) : M unit :=
  fun w => (Return tt,
            {| node := node w; timers := timers w; calls := calls w ++ [c] |}).

Definition currentTarget : M Node := fun w => (Return (node w), w).

Definition getBoundingClientRect : M Q :=
  bind (log Call_getBoundingClientRect) (fun _ =>
  bind currentTarget (fun input => ret (dom_rect_left input))).

Definition setTimeout (c : Closure) (ms : Z) : M unit :=
  bind (log (Call_setTimeout c ms)) (fun _ w =>
    (Return tt,
     {| node := node w;
        timers := timers w ++ [{| callback := c; delay := ms |}];
        calls := calls w |})).

Definition setSelectionRange (s e : number) : M unit :=
  bind (log (Call_setSelectionRange s e)) (fun _ w =>
    match dom_setSelectionRange s e (node w) with
    | inl ex => (Throw ex, w)
    | inr n' =>
        (Return tt, {| node := n'; timers := timers w; calls := calls w |})
    end).

Definition focus : M unit :=
  bind (log Call_focus) (fun _ w =>
    (Return tt,
     {| node := dom_focus (node w); timers := timers w; calls := calls w |})).

(** The caller's function [g] run on the current state. *)
Definition run_function (g : Callback) (args : list Arg) : M unit :=
  fun w =>
    let '(thrown, n') := call_function g args (node w) in
    (match thrown with
     | Some ex => Throw ex
     | None => Return tt
     end,
     {| node := n'; timers := timers w; calls := calls w |}).

(** [f?.(args)] for a prop typed as an optional function: when the prop is
    a function, the call is recorded and the function run. *)
Definition call_optional (slot : string) (f : option PropValue)
    (args : list Arg) : M unit :=
  match f with
  | Some (Fn g) =>
      bind (log (Call_prop slot g args)) (fun _ => run_function g args)
  | _ => ret tt
  end.

(** The deferred callback of [handleClick] (lines 85-102). *)
Definition run_closure (c : Closure) : M unit :=
  match c with
  | CursorFix x =>
      bind currentTarget (fun input =>
        let textWidth := dom_scrollWidth input in
        let containerWidth := dom_clientWidth input in
        let pos := cursorPos x textWidth containerWidth (dom_value input) in
        try_catch (setSelectionRange pos pos) focus)
  end.

Variable isFirefoxBrowser : bool.

(** [handleClick] (lines 78-107). *)
Definition handleClick (props : gmap string PropValue) (e : MouseEvent)
  : M unit :=
  bind (if isFirefoxBrowser then
          bind getBoundingClientRect (fun rect_left =>
            let x := js_sub (clientX e) rect_left in
            setTimeout (CursorFix x) 0)
        else ret tt) (fun _ =>
  call_optional "onClick" (props !! "onClick") [AEvent (EMouse e)]).

(** The [onKeyUp] arrow function (lines 127-137). *)
Definition onKeyUp (props : gmap string PropValue)
    (onEnter onEscape : option PropValue) (e : KeyboardEvent) : M unit :=
  bind (call_optional "onKeyUp" (props !! "onKeyUp") [AEvent (EKeyboard e)])
    (fun _ =>
  bind (if String.eqb (key e) "Enter" && provided onEnter then
          bind currentTarget (fun t =>
            call_optional "onEnter" onEnter
              [AString (dom_value t); AEvent (EKeyboard e)])
        else ret tt) (fun _ =>
  if String.eqb (key e) "Escape" && provided onEscape then
    bind currentTarget (fun t =>
      call_optional "onEscape" onEscape
        [AString (dom_value t); AEvent (EKeyboard e)])
  else ret tt)).

(** The [onBlur] arrow function (lines 138-141). *)
Definition onBlur (props : gmap string PropValue)
    (onUpdate : option PropValue) : M unit :=
  bind (bind currentTarget (fun t =>
          call_optional "onUpdate" onUpdate [AString (dom_value t); AEvent EFocus]))
    (fun _ => call_optional "onBlur" (props !! "onBlur") [AEvent EFocus]).

(** The [onChange] arrow function (lines 142-145). *)
Definition onChange (props : gmap string PropValue)
    (onChangeValue : option PropValue) : M unit :=
  bind (bind currentTarget (fun t =>
          call_optional "onChangeValue" onChangeValue
            [AString (dom_value t); AEvent EChange]))
    (fun _ => call_optional "onChange" (props !! "onChange") [AEvent EChange]).

(** Running one of [Input]'s handlers on an event of its kind. *)
Definition run_handler (h : OwnHandler) (e : Event) : M unit :=
  match h, e with
  | H_handleClick props, EMouse m => handleClick props m
  | H_onKeyUp props onEnter onEscape, EKeyboard k =>
      onKeyUp props onEnter onEscape k
  | H_onBlur props onUpdate, EFocus => onBlur props onUpdate
  | H_onChange props onChangeValue, EChange => onChange props onChangeValue
  | _, _ => ret tt
  end.

(** React delivering event [e] to the handler prop [name]: one of
    [Input]'s handlers, or a function of the caller that went through the
    spread. *)
Definition fire (element : gmap string Rendered) (name : string) (e : Event)
  : M unit :=
  match element !! name with
  | Some (Handler h) => run_handler h e
  | Some (Passed v) => call_optional name (Some v) [AEvent e]
  | _ => ret tt
  end.

(** One turn of the timer queue. *)
Definition run_next_timer (w : World) : option (result unit * World) :=
  match timers w with
  | [] => None
  | t :: rest =>
      Some (run_closure (callback t)
              {| node := node w; timers := rest; calls := calls w |})
  end.

(** Clicks delivered one after the other; an exception that leaves a
    handler is reported by React and the next event is delivered all the
    same. *)
Definition click_all (all : gmap string PropValue) (es : list MouseEvent)
    (w : World) : World :=
  fold_left (fun w e => snd (fire (Input all) "onClick" (EMouse e) w)) es w.

(** The calls and timers a computation adds. *)
Definition made {A} (m : M A) (w : World) : list Call :=
  drop (length (calls w)) (calls (snd (m w))).

Definition scheduled {A} (m : M A) (w : World) : list Timer :=
  drop (length (timers w)) (timers (snd (m w))).

(** What the call [f?.(args)] does in state [n]: the exception it throws,
    if any, the state it leaves, and the entry it makes in the trace. *)
Definition thrown_by (f : option PropValue) (args : list Arg) (n : Node)
  : option Exn :=
  match f with
  | Some (Fn g) => fst (call_function g args n)
  | _ => None
  end.

Definition node_after (f : option PropValue) (args : list Arg) (n : Node)
  : Node :=
  match f with
  | Some (Fn g) => snd (call_function g args n)
  | _ => n
  end.

Definition call_of (slot : string) (f : option PropValue) (args : list Arg)
  : list Call :=
  match f with
  | Some (Fn g) => [Call_prop slot g args]
  | _ => []
  end.

Definition completion (thrown : option Exn) : result unit :=
  match thrown with
  | Some ex => Throw ex
  | None => Return tt
  end.

End World.

(** The calls made through prop [slot], in order. *)
Fixpoint invocations (slot : string) (tr : list Call)
  : list (Callback * list Arg) :=
  match tr with
  | [] => []
  | Call_prop s f args :: tr' =>
      if String.eqb s slot then (f, args) :: invocations slot tr'
      else invocations slot tr'
  | _ :: tr' => invocations slot tr'
  end.

Definition writes_selection (c : Call) : bool :=
  match c with
  | Call_setSelectionRange _ _ => true
  | _ => false
  end.

Definition is_call_prop (c : Call) : bool :=
  match c with
  | Call_prop _ _ _ => true
  | _ => false
  end.

(** *** The ref of the rendered element *)

(** The [ref] prop of [Input]: a callback ref or a ref object (named by a
    number), when the caller gives one. *)
Inductive RefProp : Type :=
| RefFunction (f : Callback)
| RefObject (id : nat).

Section Refs.
Context {Node : Type}.

(** The [current] field of every ref object of the caller, that of
    [inputRef] (made by [useRef] in [Input]), and the calls of callback refs
    so far. *)
Record Refs : Type := {
  ref_objects : gmap nat (option Node);
  inputRef : option Node;
  ref_calls : list (Callback * option Node);
}.

(** What a callback ref of the caller does when called with a node: it may
    change the ref objects the caller holds, and it returns or throws.
    [inputRef] is local to [Input] and out of its reach. *)
Variable call_ref :
  Callback -> option Node -> gmap nat (option Node) ->
  option Exn * gmap nat (option Node).

(** The [ref] arrow function of [Input] (lines 111-119); React calls it
    with the node when the element is attached and with null when it is
    detached. *)
Definition ref_callback (ref : option RefProp) (node : option Node)
    (r : Refs) : result unit * Refs :=
  match ref with
  | Some (RefFunction f) =>
      let '(thrown, objects) := call_ref f node (ref_objects r) in
      match thrown with
      | Some ex =>
          (Throw ex,
           {| ref_objects := objects; inputRef := inputRef r;
              ref_calls := ref_calls r ++ [(f, node)] |})
      | None =>
          (Return tt,
           {| ref_objects := objects; inputRef := node;
              ref_calls := ref_calls r ++ [(f, node)] |})
      end
  | Some (RefObject id) =>
      (Return tt,
       {| ref_objects := <[id := node]> (ref_objects r);
          inputRef := node; ref_calls := ref_calls r |})
  | None =>
      (Return tt,
       {| ref_objects := ref_objects r; inputRef := node;
          ref_calls := ref_calls r |})
  end.

(** React attaching and detaching the element several times. *)
Definition ref_updates (ref : option RefProp) (nodes : list (option Node))
    (r : Refs) : Refs :=
  fold_left (fun r node => snd (ref_callback ref node r)) nodes r.

End Refs.

(** *** Samples *)

(** Caller functions for examples: function 0 throws, function 9 rewrites
    the input's value, every other function returns and changes nothing. *)
Definition sample_call (f : Callback) (args : list Arg) (n : SimpleNode)
  : option Exn * SimpleNode :=
  match f with
  | Function 0 => (Some (TypeError "callback failed"), n)
  | Function 9 =>
      (None,
       {| sn_value := "changed"; sn_scrollWidth := sn_scrollWidth n;
          sn_clientWidth := sn_clientWidth n; sn_left := sn_left n;
          sn_selectable := sn_selectable n; sn_selection := sn_selection n;
          sn_focused := sn_focused n |})
  | _ => (None, n)
  end.

#[export] Instance SampleCaller : Caller SimpleNode := {
  call_function := sample_call;
}.

Definition world_of (n : SimpleNode) : @World SimpleNode :=
  {| node := n; timers := []; calls := [] |}.

(** Props whose [onKeyUp], [onUpdate] and [onChangeValue] throw. *)
Definition throwing_props : gmap string PropValue :=
  <["onKeyUp" := Fn (Function 0)]>
    (<["onEnter" := Fn (Function 3)]>
      (<["onUpdate" := Fn (Function 0)]>
        (<["onBlur" := Fn (Function 4)]>
          (<["onChangeValue" := Fn (Function 0)]>
            (<["onChange" := Fn (Function 6)]> ∅))))).

(** Props whose [onClick] rewrites the input's value. *)
Definition rewriting_props : gmap string PropValue :=
  <["onClick" := Fn (Function 9)]> ∅.

(** Claim C6, its key-up part as it is worded: [onEnter] is called with
    the input's value whenever the key is Enter and [onEnter] is given. *)
Definition onEnter_whenever_Enter : Prop :=
  forall (Node : Type) (B : Browser Node) (C : Caller Node)
         (all : gmap string PropValue) (e : KeyboardEvent)
         (w : @World Node) (f : Callback),
    all !! "onEnter" = Some (Fn f) -> key e = "Enter" ->
    exists value,
      invocations "onEnter"
        (made (fire false (Input all) "onKeyUp" (EKeyboard e)) w) =
      [(f, [AString value; AEvent (EKeyboard e)])].

(** Claim C6, its first part read on the rendered element: no event other
    than click, key-up, blur and change has a handler. *)
Definition only_four_events_handled : Prop :=
  forall (Node : Type) (B : Browser Node) (C : Caller Node)
         (all : gmap string PropValue) (name : string) (ev : Event)
         (w : @World Node),
    ~ In name ["onClick"; "onKeyUp"; "onBlur"; "onChange"] ->
    made (fire false (Input all) name ev) w = [].

(** Claim C9 as it is worded, for blur: the caller's [onBlur] is called
    exactly once per blur event. *)
Definition onBlur_always_called_once : Prop :=
  forall (Node : Type) (B : Browser Node) (C : Caller Node)
         (all : gmap string PropValue) (w : @World Node) (f : Callback),
    all !! "onBlur" = Some (Fn f) ->
    invocations "onBlur" (made (fire false (Input all) "onBlur" EFocus) w) =
    [(f, [AEvent EFocus])].

End InputFull.

Module ExperimentalTsx.

(** *** Stores outside the component *)

(** The synced preferences and the browser's [localStorage], both maps from
    string keys to string values. *)
Record World : Type := {
  prefs : gmap string string;
  localStorage : gmap string string;
}.

(** [localStorage.getItem(k)]: the stored string, or null. *)
Definition getItem (k : string) (w : World) : option string :=
  localStorage w !! k.

(** The setter a call of [useSyncedPref] returns, named by the key it was
    made for. *)
Inductive Setter : Type := SetPref (key : string).

(** Modelled from the spec: the hook [useSyncedPref] of
    desktop-client/hooks/useSyncedPref is missing.  It gives the preference
    stored under [key] and a setter that stores a string under that key (the
    spec's key-value write). *)
Definition useSyncedPref (key : string) (w : World) : option string * Setter :=
  (prefs w !! key, SetPref key).

Definition run_setter (s : Setter) (v : string) (w : World) : World :=
  match s with
  | SetPref key => {| prefs := <[key := v]> (prefs w);
                      localStorage := localStorage w |}
  end.

(** Modelled from the spec: one reading of the missing hook [useFeatureFlag]
    (a flag is a boolean persisted as a string preference), used for
    examples; the component itself is stated over any such hook. *)
Definition useFeatureFlag_pref (flagName : string) (w : World) : bool :=
  bool_decide (prefs w !! ("flags." +:+ flagName) = Some "true").

(** *** Elements *)

(** The component's own state: [useState(false)] is its only state hook. *)
Record State : Type := { expanded : bool }.

Definition initial_state : State := {| expanded := false |}.

(** The arrow functions of the two components, with what they capture. *)
Inductive Closure : Type :=
| OnChange (setFlagPref : Setter) (enabled : bool)
| OnClick_expand.

(** The React elements the two components build (styles left out). *)
Inductive Element : Type :=
| label (children : list Element)
| Checkbox (checked : bool) (onChange : Closure) (disabled : bool)
| View (children : list Element)
| Link (variant : string) (to : option string) (onClick : option Closure)
       (testid : option string) (children : list Element)
| Trans (text : string)
| Text (children : list Element)
| Setting (primaryAction : Element) (children : list Element).

(** [{cond && element}] among JSX children. *)
Definition when (cond : bool) (e : Element) : list Element :=
  if cond then [e] else [].

Record FeatureToggleProps : Type := {
  flag : string;
  disableToggle : option bool;
  error : list Element;
  children : list Element;
  feedbackLink : option string;
}.

(** Truthiness of an optional string. *)
Definition truthy (s : option string) : bool :=
  match s with
  | Some s => negb (String.eqb s "")
  | None => false
  end.

Section Components.
(** The hook [useFeatureFlag] is not part of the excerpt; it reads the
    flag's current value from the stores. *)
Variable useFeatureFlag : string -> World -> bool.

(** [FeatureToggle] (lines 25-69). *)
Definition FeatureToggle (p : FeatureToggleProps) (w : World) : Element :=
  let flagName := flag p in
  let disableToggle := default false (disableToggle p) in
  let enabled := useFeatureFlag flagName w in
  let setFlagPref := snd (useSyncedPref ("flags." +:+ flagName) w) in
  label
    [ Checkbox enabled (OnChange setFlagPref enabled) disableToggle;
      View
        ([ View (children p ++
                 when (truthy (feedbackLink p))
                   (Link "external" (feedbackLink p) None None
                      [Trans "(give feedback)"])) ]
         ++ when disableToggle (Text (error p))) ].

Definition toggle (flagName : string) (feedback : option string)
    (text : string) : FeatureToggleProps :=
  {| flag := flagName; disableToggle := None; error := [];
     children := [Trans text]; feedbackLink := feedback |}.

(** [showGoalTemplatesUI] (lines 74-79). *)
Definition showGoalTemplatesUI (w : World) : bool :=
  let goalTemplatesEnabled := useFeatureFlag "goalTemplatesEnabled" w in
  let goalTemplatesUIEnabled := useFeatureFlag "goalTemplatesUIEnabled" w in
  goalTemplatesUIEnabled ||
  (goalTemplatesEnabled &&
   bool_decide (getItem "devEnableGoalTemplatesUI" w = Some "true")).

Definition experimental_warning : string :=
  "Experimental features. These features are not fully tested and may not work as expected. THEY MAY CAUSE IRRECOVERABLE DATA LOSS. They may do nothing at all. Only enable them if you know what you are doing.".

(** [ExperimentalFeatures] (lines 71-135), with the child [FeatureToggle]
    components rendered in place. *)
Definition ExperimentalFeatures (s : State) (w : World) : Element :=
  Setting
    (if expanded s then
       View
         ([ FeatureToggle (toggle "goalTemplatesEnabled" None "Goal templates") w ]
          ++ when (showGoalTemplatesUI w)
               (View [ FeatureToggle
                         (toggle "goalTemplatesUIEnabled" None
                            "Subfeature: Budget automations UI") w ])
          ++ [ FeatureToggle
                 (toggle "actionTemplating"
                    (Some "https://github.com/actualbudget/actual/issues/3606")
                    "Rule action templating") w;
               FeatureToggle
                 (toggle "pluggyAiBankSync"
                    (Some "https://github.com/actualbudget/actual/pull/4049")
                    "Pluggy.ai Bank Sync (Brazilian banks only)") w ])
     else
       Link "text" None (Some OnClick_expand) (Some "experimental-settings")
         [Trans "I understand the risks, show experimental features"])
    [Text [Trans experimental_warning]].

End Components.

(** *** Events *)

(** Running a closure: [setFlagPref(String(!enabled))], or
    [setExpanded(true)]. *)
Definition run_closure (c : Closure) (sw : State * World) : State * World :=
  match c with
  | OnChange setFlagPref enabled =>
      (fst sw, run_setter setFlagPref (String_of_bool (negb enabled)) (snd sw))
  | OnClick_expand => ({| expanded := true |}, snd sw)
  end.

(** The checkboxes of an element, in document order, as
    (checked, onChange, disabled). *)
Fixpoint checkboxes (e : Element) : list (bool * Closure * bool) :=
  let all := fix all (l : list Element) :=
    match l with
    | [] => []
    | x :: l' => checkboxes x ++ all l'
    end in
  match e with
  | label cs => all cs
  | Checkbox checked onChange disabled => [(checked, onChange, disabled)]
  | View cs => all cs
  | Link _ _ _ _ cs => all cs
  | Trans _ => []
  | Text cs => all cs
  | Setting a cs => checkboxes a ++ all cs
  end.

(** The texts inside an element, in document order. *)
Fixpoint texts (e : Element) : list string :=
  let all := fix all (l : list Element) :=
    match l with
    | [] => []
    | x :: l' => texts x ++ all l'
    end in
  match e with
  | label cs => all cs
  | Checkbox _ _ _ => []
  | View cs => all cs
  | Link _ _ _ _ cs => all cs
  | Trans t => [t]
  | Text cs => all cs
  | Setting a cs => texts a ++ all cs
  end.

(** The links of an element that have a click handler, as
    (handler, texts inside). *)
Fixpoint links (e : Element) : list (Closure * list string) :=
  let all := fix all (l : list Element) :=
    match l with
    | [] => []
    | x :: l' => links x ++ all l'
    end in
  match e with
  | label cs => all cs
  | Checkbox _ _ _ => []
  | View cs => all cs
  | Link _ _ (Some h) _ cs => (h, flat_map texts cs) :: all cs
  | Link _ _ None _ cs => all cs
  | Trans _ => []
  | Text cs => all cs
  | Setting a cs => links a ++ all cs
  end.

(** The user events an element offers: a change of an enabled checkbox, a
    click on a link that has a handler. *)
Definition offered (e : Element) : list Closure :=
  map (fun c => snd (fst c)) (filter (fun c => negb (snd c)) (checkboxes e))
  ++ map fst (links e).

(** The flag a toggle row is for is read off the key of its setter; a row
    for [flagName] is shown when a checkbox writes [flags.flagName]. *)
Definition toggles_flag (flagName : string) (c : bool * Closure * bool) : bool :=
  match snd (fst c) with
  | OnChange (SetPref key) _ => String.eqb key ("flags." +:+ flagName)
  | OnClick_expand => false
  end.

Definition shows_toggle (flagName : string) (e : Element) : bool :=
  existsb (toggles_flag flagName) (checkboxes e).

Section Steps.
Variable useFeatureFlag : string -> World -> bool.

(** A step of the mounted component: the user fires an event the current
    rendering offers, or the stores change from outside. *)
Inductive step : State * World -> State * World -> Prop :=
| step_event s w c :
    In c (offered (ExperimentalFeatures useFeatureFlag s w)) ->
    step (s, w) (run_closure c (s, w))
| step_stores s w w' :
    step (s, w) (s, w').

Inductive steps : State * World -> State * World -> Prop :=
| steps_refl sw : steps sw sw
| steps_step sw1 sw2 sw3 : step sw1 sw2 -> steps sw2 sw3 -> steps sw1 sw3.

End Steps.

(** The checkbox of the toggle row for [flagName] in world [w]. *)
Definition toggle_row (useFeatureFlag : string -> World -> bool)
    (flagName : string) (w : World) : bool * Closure * bool :=
  (useFeatureFlag flagName w,
   OnChange (SetPref ("flags." +:+ flagName)) (useFeatureFlag flagName w),
   false).

(** Toggling one preference several times in a row, each time from the
    displayed state given. *)
Definition toggle_many (key : string) (displayed : list bool)
    (sw : State * World) : State * World :=
  fold_left (fun sw b => run_closure (OnChange (SetPref key) b) sw) displayed sw.

Definition sample_world : World :=
  {| prefs := {[ "flags.goalTemplatesEnabled" := "true" ]};
     localStorage := {[ "devEnableGoalTemplatesUI" := "true" ]} |}.

(** The preference keys of the four flags of the panel. *)
Definition panel_keys : list string :=
  ["flags.goalTemplatesEnabled"; "flags.goalTemplatesUIEnabled";
   "flags.actionTemplating"; "flags.pluggyAiBankSync"].

(** What is asked of the missing hook [useFeatureFlag] where a property
    needs it: a flag whose preference is set reads as the comparison of the
    stored string with "true", and a flag reads nothing but its own
    preference. *)
Definition reads_pref (useFeatureFlag : string -> World -> bool) : Prop :=
  (forall flagName w v,
     prefs w !! ("flags." +:+ flagName) = Some v ->
     useFeatureFlag flagName w = bool_decide (v = "true")) /\
  (forall flagName w w',
     prefs w !! ("flags." +:+ flagName) = prefs w' !! ("flags." +:+ flagName) ->
     useFeatureFlag flagName w = useFeatureFlag flagName w').

Definition sample_toggle_props : FeatureToggleProps :=
  {| flag := "actionTemplating"; disableToggle := Some true;
     error := [Trans "Not available"]; children := [Trans "Rule action templating"];
     feedbackLink := Some "https://github.com/actualbudget/actual/issues/3606" |}.

End ExperimentalTsx.

(** * Properties of Input.tsx *)

Import InputTsx.

(** ** Arithmetic of the cursor position *)

Lemma Math_min_le_r (a b : Q) : (Math_min a b <= b)%Q.
Proof.
  unfold Math_min. destruct (Qle_bool a b) eqn:E.
  - now apply Qle_bool_iff.
  - apply Qle_refl.
Qed.

Lemma Math_max_ge_l (a b : Q) : (a <= Math_max a b)%Q.
Proof.
  unfold Math_max. destruct (Qle_bool a b) eqn:E.
  - now apply Qle_bool_iff.
  - apply Qle_refl.
Qed.

Lemma Math_max_lub (a b c : Q) :
  (a <= c)%Q -> (b <= c)%Q -> (Math_max a b <= c)%Q.
Proof. intros Ha Hb. unfold Math_max. now destruct (Qle_bool a b). Qed.

(** The click offset is clamped to [0, containerWidth]. *)
Lemma clamp_bounds (x c : Q) :
  (0 <= c)%Q ->
  (0 <= Math_max 0 (Math_min x c))%Q /\ (Math_max 0 (Math_min x c) <= c)%Q.
Proof.
  intros Hc. split.
  - apply Math_max_ge_l.
  - apply Math_max_lub; [exact Hc | apply Math_min_le_r].
Qed.

Lemma value_length_length (v : string) : value_length v = String.length v.
Proof.
  unfold value_length. destruct (String.length v) as [|n] eqn:E; reflexivity.
Qed.

(** Rounding a rational of [0, n] gives an integer of [0, n]. *)
Lemma round_bounds (a : Q) (n : Z) :
  (0 <= a)%Q -> (a <= inject_Z n)%Q ->
  (0 <= Qfloor (a + (1 # 2)) <= n)%Z.
Proof.
  intros H0 Hn. split.
  - change 0%Z with (Qfloor (inject_Z 0)) at 1.
    apply Qfloor_resp_le.
    apply Qle_trans with a; [exact H0 |].
    rewrite <- (Qplus_0_r a) at 1.
    apply Qplus_le_compat; [apply Qle_refl | discriminate].
  - apply Z.lt_succ_r. rewrite Zlt_Qlt.
    apply Qle_lt_trans with (a + (1 # 2))%Q; [apply Qfloor_le |].
    apply Qle_lt_trans with (inject_Z n + (1 # 2))%Q.
    + apply Qplus_le_compat; [exact Hn | apply Qle_refl].
    + unfold Z.succ. rewrite inject_Z_plus.
      apply Qplus_lt_r. reflexivity.
Qed.

(** The ratio of the clamped offset to a positive width lies in [0, 1]. *)
Lemma ratio_bounds (r c : Q) :
  (0 < c)%Q -> (0 <= r)%Q -> (r <= c)%Q ->
  (0 <= r / c)%Q /\ (r / c <= 1)%Q.
Proof.
  intros Hc H0 H1. split.
  - apply Qle_shift_div_l; [exact Hc |]. now rewrite Qmult_0_l.
  - apply Qle_shift_div_r; [exact Hc |]. now rewrite Qmult_1_l.
Qed.

(** ** What each handler does to the world *)

Ltac unfold_M :=
  unfold handleClick, onKeyUp, onBlur, onChange, run_closure,
    getBoundingClientRect, setTimeout, setSelectionRange, focus,
    call_optional, currentTarget, try_catch, bind, log, ret, call_of,
    provided, click_x, callback_pos in *.

Ltac tidy_lists :=
  cbn; rewrite <- ?app_assoc, ?app_nil_r; cbn.

Section Handlers.
Context {Node : Type} `{Browser Node}.
Implicit Types (w : @World Node) (props all : gmap string PropValue).

Lemma handleClick_eq (isFirefoxBrowser : bool) props e w :
  handleClick isFirefoxBrowser props e w =
  (Return tt,
   {| node := node w;
      timers := timers w ++
        (if isFirefoxBrowser
         then [{| callback := CursorFix (click_x e w); delay := 0 |}]
         else []);
      calls := calls w ++
        (if isFirefoxBrowser
         then [Call_getBoundingClientRect;
               Call_setTimeout (CursorFix (click_x e w)) 0]
         else []) ++
        call_of "onClick" (props !! "onClick") [AEvent (EMouse e)] |}).
Proof.
  destruct w as [n ts cs]. unfold_M.
  destruct isFirefoxBrowser, (props !! "onClick") as [[f|s]|];
    tidy_lists; reflexivity.
Qed.




(** The deferred callback: the selection is set, or, when that throws, the
    input is focused; either way the callback returns. *)
Lemma run_closure_eq x w :
  run_closure (CursorFix x) w =
  let pos := callback_pos x w in
  match dom_setSelectionRange pos pos (node w) with
  | inr n' =>
      (Return tt,
       {| node := n'; timers := timers w;
          calls := calls w ++ [Call_setSelectionRange pos pos] |})
  | inl _ =>
      (Return tt,
       {| node := dom_focus (node w); timers := timers w;
          calls := calls w ++ [Call_setSelectionRange pos pos; Call_focus] |})
  end.
Proof.
  destruct w as [n ts cs]. unfold_M. cbn [node timers calls].
  destruct (dom_setSelectionRange _ _ n); tidy_lists; reflexivity.
Qed.

Lemma run_closure_returns c w : fst (run_closure c w) = Return tt.
Proof.
  destruct c as [x]. rewrite run_closure_eq. cbn zeta.
  now destruct (dom_setSelectionRange _ _ _).
Qed.


End Handlers.

(** The initialiser of [isFirefoxBrowser] never throws. *)
Lemma isFirefoxBrowser_init_returns (navigator : option Navigator) :
  exists b : bool, isFirefoxBrowser_init navigator = Return b.
Proof.
  destruct navigator as [[[ua|e]]|]; cbn; eauto.
Qed.

Lemma isFirefoxBrowser_init_catches (nav : Navigator) (e : Exn) :
  userAgent nav = Throw e -> isFirefoxBrowser_init (Some nav) = Return false.
Proof. intros E. cbn. now rewrite E. Qed.

(** ** The props of the rendered element *)

Lemma rest_props_lookup (all : gmap string PropValue) (name : string) :
  ~ In name ["ref"; "onEnter"; "onEscape"; "onChangeValue"; "onUpdate";
             "className"] ->
  rest_props all !! name = all !! name.
Proof.
  intros Hn. unfold rest_props.
  rewrite !lookup_delete_ne; [reflexivity | ..];
    intros <-; apply Hn; cbn; tauto.
Qed.

Lemma rest_props_destructured (all : gmap string PropValue) (name : string) :
  In name ["ref"; "onEnter"; "onEscape"; "onChangeValue"; "onUpdate";
           "className"] ->
  rest_props all !! name = None.
Proof.
  intros Hn. unfold rest_props. cbn in Hn.
  repeat (destruct Hn as [<- | Hn];
          [ rewrite ?lookup_delete_eq, ?lookup_delete_ne by discriminate;
            now rewrite ?lookup_delete_eq | ]).
  destruct Hn.
Qed.

Lemma Input_onClick (all : gmap string PropValue) :
  Input all !! "onClick" = Some (Handler (H_handleClick (rest_props all))).
Proof. unfold Input. now simplify_map_eq. Qed.

Lemma Input_onKeyUp (all : gmap string PropValue) :
  Input all !! "onKeyUp" =
  Some (Handler (H_onKeyUp (rest_props all) (all !! "onEnter") (all !! "onEscape"))).
Proof. unfold Input. now simplify_map_eq. Qed.

Lemma Input_onBlur (all : gmap string PropValue) :
  Input all !! "onBlur" =
  Some (Handler (H_onBlur (rest_props all) (all !! "onUpdate"))).
Proof. unfold Input. now simplify_map_eq. Qed.

Lemma Input_onChange (all : gmap string PropValue) :
  Input all !! "onChange" =
  Some (Handler (H_onChange (rest_props all) (all !! "onChangeValue"))).
Proof. unfold Input. now simplify_map_eq. Qed.

(** Every other prop of the rendered element comes from the spread, or is
    [ref] or [className]. *)
Lemma Input_other (all : gmap string PropValue) (name : string) :
  ~ In name ["onClick"; "onKeyUp"; "onBlur"; "onChange"] ->
  Input all !! name =
  match rest_props all !! name with
  | Some v => Some (Passed v)
  | None =>
      if decide (name = "className") then Some (ClassName (all !! "className"))
      else if decide (name = "ref") then Some (RefCallback (all !! "ref"))
      else None
  end.
Proof.
  intros Hn. unfold Input. cbn zeta.
  rewrite !lookup_insert_ne by (intros <-; apply Hn; cbn; tauto).
  rewrite lookup_union, lookup_fmap.
  destruct (rest_props all !! name) as [v|] eqn:E; cbn.
  - apply union_Some_l.
  - rewrite (left_id_L None (∪)).
    rewrite !lookup_insert. repeat case_decide; subst; try congruence.
    now rewrite lookup_empty.
Qed.

(** ** Events delivered to the rendered element *)

Section Fire.
Context {Node : Type} `{Browser Node}.
Variable isFirefoxBrowser : bool.
Implicit Types (w : @World Node) (all : gmap string PropValue).



Lemma fire_onClick all e w :
  fire isFirefoxBrowser (Input all) "onClick" (EMouse e) w =
  handleClick isFirefoxBrowser (rest_props all) e w.
Proof. unfold fire. now rewrite Input_onClick. Qed.

Lemma fire_onKeyUp all e w :
  fire isFirefoxBrowser (Input all) "onKeyUp" (EKeyboard e) w =
  onKeyUp (rest_props all) (all !! "onEnter") (all !! "onEscape") e w.
Proof. unfold fire. now rewrite Input_onKeyUp. Qed.

Lemma fire_onBlur all w :
  fire isFirefoxBrowser (Input all) "onBlur" EFocus w =
  onBlur (rest_props all) (all !! "onUpdate") w.
Proof. unfold fire. now rewrite Input_onBlur. Qed.

Lemma fire_onChange all w :
  fire isFirefoxBrowser (Input all) "onChange" EChange w =
  onChange (rest_props all) (all !! "onChangeValue") w.
Proof. unfold fire. now rewrite Input_onChange. Qed.



End Fire.

Lemma Input_handler_inv (all : gmap string PropValue) (name : string)
    (h : OwnHandler) :
  Input all !! name = Some (Handler h) ->
  name = "onClick" /\ h = H_handleClick (rest_props all) \/
  name = "onKeyUp" /\
    h = H_onKeyUp (rest_props all) (all !! "onEnter") (all !! "onEscape") \/
  name = "onBlur" /\ h = H_onBlur (rest_props all) (all !! "onUpdate") \/
  name = "onChange" /\ h = H_onChange (rest_props all) (all !! "onChangeValue").
Proof.
  intros E.
  destruct (decide (name = "onClick")) as [-> | N1].
  { rewrite Input_onClick in E. left. split; congruence. }
  destruct (decide (name = "onKeyUp")) as [-> | N2].
  { rewrite Input_onKeyUp in E. right; left. split; congruence. }
  destruct (decide (name = "onBlur")) as [-> | N3].
  { rewrite Input_onBlur in E. right; right; left. split; congruence. }
  destruct (decide (name = "onChange")) as [-> | N4].
  { rewrite Input_onChange in E. right; right; right. split; congruence. }
  rewrite Input_other in E by (cbn; intuition congruence).
  destruct (rest_props all !! name); [discriminate |].
  repeat case_decide; discriminate.
Qed.

Lemma invocations_app (slot : string) (tr1 tr2 : list Call) :
  invocations slot (tr1 ++ tr2) = invocations slot tr1 ++ invocations slot tr2.
Proof.
  induction tr1 as [|c tr1 IH]; [reflexivity |].
  destruct c; cbn; try exact IH.
  destruct (String.eqb slot0 slot); cbn; now rewrite IH.
Qed.

Lemma invocations_call_of (slot slot' : string) (f : option PropValue)
    (args : list Arg) :
  invocations slot (call_of slot' f args) =
  if String.eqb slot' slot then
    match f with
    | Some (Fn g) => [(g, args)]
    | _ => []
    end
  else [].
Proof.
  unfold call_of. destruct f as [[g|s]|]; cbn;
    now destruct (String.eqb slot' slot).
Qed.

(** ** The model at work *)

Example detects_firefox :
  isFirefoxBrowser_init (Some firefox_navigator) = Return true.
Proof. reflexivity. Qed.

Example no_navigator : isFirefoxBrowser_init None = Return false.
Proof. reflexivity. Qed.

(** A click 60px from the viewport's left edge on an input that starts at
    10px: the callback is scheduled with x = 50 and the caller's [onClick]
    runs; the timer then puts the cursor at round(0.5 * 5) = 3. *)
Example click_on_text_node :
  let w1 := snd (fire true (Input sample_props) "onClick"
                   (EMouse {| clientX := 60 |}) (world_of text_node)) in
  calls w1 =
    [Call_getBoundingClientRect; Call_setTimeout (CursorFix 50) 0;
     Call_prop "onClick" (Function 1) [AEvent (EMouse {| clientX := 60 |})]] /\
  sn_selection (node w1) = None /\
  option_map (fun r => sn_selection (node (snd r))) (run_next_timer w1) =
    Some (Some (Num 3, Num 3)).
Proof. vm_compute. repeat split. Qed.

(** A prop [Input] has no handler for goes to the element as it came. *)
Example focus_goes_to_the_caller :
  calls (snd (fire true (Input sample_props) "onFocus" EFocus
                (world_of text_node))) =
  [Call_prop "onFocus" (Function 5) [AEvent EFocus]].
Proof. vm_compute. reflexivity. Qed.

Example enter_calls_onEnter :
  calls (snd (fire false (Input sample_props) "onKeyUp"
                (EKeyboard {| key := "Enter" |}) (world_of text_node))) =
  [Call_prop "onKeyUp" (Function 2) [AEvent (EKeyboard {| key := "Enter" |})];
   Call_prop "onEnter" (Function 3)
     [AString "hello"; AEvent (EKeyboard {| key := "Enter" |})]].
Proof. vm_compute. reflexivity. Qed.

(** Zero width: 0 / 0 is NaN, and stays NaN through the rounding. *)
Example zero_width_gives_NaN : cursorPos 3 200 0 "hello" = NaN.
Proof. reflexivity. Qed.

(** ** The claims about Input.tsx *)

(** C3, the part that fails: the [try] of the deferred callback is not the
    only construct that handles a failure.  The initialiser of
    [isFirefoxBrowser], which gives [true] on a Firefox user agent, catches
    what the read of [navigator.userAgent] throws, and gives [false]. *)
Lemma cursor_try_is_not_only_handler :
  isFirefoxBrowser_init (Some firefox_navigator) = Return true /\
  userAgent throwing_navigator = Throw (TypeError "userAgent is not available") /\
  isFirefoxBrowser_init (Some throwing_navigator) = Return false /\
  ~ cursor_try_is_only_handler.
Proof.
  split; [reflexivity | split; [reflexivity | split; [reflexivity |]]].
  intros Hc. specialize (Hc throwing_navigator _ eq_refl). discriminate Hc.
Qed.

(** Under Firefox, with no other timer pending, the next turn of the timer
    queue after a click runs the cursor fix of that click. *)
Lemma click_then_timer_runs_callback {Node : Type} `{Browser Node}
    (all : gmap string PropValue) (e : MouseEvent) (w : @World Node) :
  timers w = [] ->
  run_next_timer (snd (fire true (Input all) "onClick" (EMouse e) w)) =
  Some (run_closure (CursorFix (click_x e w))
          {| node := node w; timers := [];
             calls := calls w ++
               [Call_getBoundingClientRect;
                Call_setTimeout (CursorFix (click_x e w)) 0] ++
               call_of "onClick" (rest_props all !! "onClick")
                 [AEvent (EMouse e)] |}).
Proof.
  intros E. rewrite fire_onClick, handleClick_eq.
  unfold run_next_timer. cbn [snd timers node calls callback].
  now rewrite E.
Qed.


(** * Further properties of Input.tsx *)

(** ** The cursor position at the edges *)

Lemma Qle_bool_false (a b : Q) : Qle_bool a b = false -> (b < a)%Q.
Proof.
  intros E. apply Qnot_le_lt. intros Hle.
  apply Qle_bool_iff in Hle. congruence.
Qed.

Lemma Math_min_le_l (a b : Q) : (Math_min a b <= a)%Q.
Proof.
  unfold Math_min. destruct (Qle_bool a b) eqn:E.
  - apply Qle_refl.
  - apply Qlt_le_weak. now apply Qle_bool_false.
Qed.

Lemma Math_max_ge_r (a b : Q) : (b <= Math_max a b)%Q.
Proof.
  unfold Math_max. destruct (Qle_bool a b) eqn:E.
  - apply Qle_refl.
  - apply Qlt_le_weak. now apply Qle_bool_false.
Qed.

Lemma Math_min_glb (a b c : Q) :
  (c <= a)%Q -> (c <= b)%Q -> (c <= Math_min a b)%Q.
Proof. intros Ha Hb. unfold Math_min. now destruct (Qle_bool a b). Qed.

Lemma Math_min_mono (a b c : Q) :
  (a <= b)%Q -> (Math_min a c <= Math_min b c)%Q.
Proof.
  intros Hab. apply Math_min_glb.
  - apply Qle_trans with a; [apply Math_min_le_l | exact Hab].
  - apply Math_min_le_r.
Qed.

Lemma Math_max_mono (a b c : Q) :
  (a <= b)%Q -> (Math_max c a <= Math_max c b)%Q.
Proof.
  intros Hab. apply Math_max_lub.
  - apply Math_max_ge_l.
  - apply Qle_trans with b; [exact Hab | apply Math_max_ge_r].
Qed.

(** A click left of the input clamps to 0, one right of it to the width. *)
Lemma clamp_left (x c : Q) :
  (x <= 0)%Q -> (Math_max 0 (Math_min x c) == 0)%Q.
Proof.
  intros Hx. apply Qle_antisym.
  - apply Math_max_lub; [apply Qle_refl |].
    apply Qle_trans with x; [apply Math_min_le_l | exact Hx].
  - apply Math_max_ge_l.
Qed.

Lemma clamp_right (x c : Q) :
  (0 <= c)%Q -> (c <= x)%Q -> (Math_max 0 (Math_min x c) == c)%Q.
Proof.
  intros Hc Hx. apply Qle_antisym.
  - now apply clamp_bounds.
  - apply Qle_trans with (Math_min x c); [| apply Math_max_ge_r].
    apply Math_min_glb; [exact Hx | apply Qle_refl].
Qed.

Lemma round_integer (q : Q) (n : Z) :
  (q == inject_Z n)%Q -> Qfloor (q + (1 # 2)) = n.
Proof.
  intros E. rewrite E. apply Z.le_antisymm.
  - apply Z.lt_succ_r. rewrite Zlt_Qlt.
    apply Qle_lt_trans with (inject_Z n + (1 # 2))%Q; [apply Qfloor_le |].
    unfold Z.succ. rewrite inject_Z_plus. apply Qplus_lt_r. reflexivity.
  - rewrite <- (Qfloor_Z n) at 1. apply Qfloor_resp_le.
    rewrite <- (Qplus_0_r (inject_Z n)) at 1.
    apply Qplus_le_compat; [apply Qle_refl | discriminate].
Qed.

Lemma positive_width (containerWidth : Z) :
  (0 < containerWidth)%Z ->
  (0 < inject_Z containerWidth)%Q /\
  Qeq_bool (inject_Z containerWidth) 0 = false.
Proof.
  intros Hw.
  assert (Hc : (0 < inject_Z containerWidth)%Q)
    by (change 0%Q with (inject_Z 0); rewrite <- Zlt_Qlt; exact Hw).
  split; [exact Hc |].
  destruct (Qeq_bool (inject_Z containerWidth) 0) eqn:E; [| reflexivity].
  apply Qeq_bool_iff in E. rewrite E in Hc. now apply Qlt_irrefl in Hc.
Qed.

Lemma length_nonneg (value : string) :
  (0 <= inject_Z (Z.of_nat (String.length value)))%Q.
Proof.
  change 0%Q with (inject_Z 0). rewrite <- Zle_Qle. apply Nat2Z.is_nonneg.
Qed.

(** X1. With a positive [clientWidth], the cursor goes to position 0 when
    the click is at or left of the input's left edge, when [scrollWidth] is
    not positive, or when the value is empty. *)
Theorem cursorPos_start (x : Q) (textWidth containerWidth : Z)
    (value : string) :
  (0 < containerWidth)%Z ->
  (x <= 0)%Q \/ (textWidth <= 0)%Z \/ value = "" ->
  cursorPos x textWidth containerWidth value = Num 0.
Proof.
  intros Hw Hcase.
  destruct (positive_width _ Hw) as [Hc Hne].
  unfold cursorPos. rewrite value_length_length.
  change (Num 0) with (Num (inject_Z 0)).
  destruct (0 <? textWidth)%Z eqn:Ht.
  - unfold js_div. rewrite Hne. cbn [js_mul Math_round].
    do 2 f_equal. apply round_integer.
    destruct Hcase as [Hx | [Hs | ->]].
    + rewrite (clamp_left x _ Hx). unfold Qdiv. now rewrite !Qmult_0_l.
    + apply Z.ltb_lt in Ht. exfalso. apply (Z.lt_irrefl 0).
      now apply Z.lt_le_trans with textWidth.
    + cbn [String.length Z.of_nat]. apply Qmult_0_r.
  - reflexivity.
Qed.

Lemma cursorPos_start_witness :
  cursorPos (-(7 # 2)) 300 120 "hello world" = Num 0.
Proof.
  apply (cursorPos_start (-(7 # 2)) 300 120 "hello world").
  - reflexivity.
  - left. discriminate.
Defined.

(** X2. With positive [scrollWidth] and [clientWidth], a click at or right
    of the input's right edge puts the cursor after the last character. *)
Theorem cursorPos_end (x : Q) (textWidth containerWidth : Z)
    (value : string) :
  (0 < textWidth)%Z -> (0 < containerWidth)%Z ->
  (inject_Z containerWidth <= x)%Q ->
  cursorPos x textWidth containerWidth value =
  Num (inject_Z (Z.of_nat (String.length value))).
Proof.
  intros Ht Hw Hx.
  destruct (positive_width _ Hw) as [Hc Hne].
  unfold cursorPos. rewrite value_length_length.
  apply Z.ltb_lt in Ht. rewrite Ht.
  unfold js_div. rewrite Hne. cbn [js_mul Math_round].
  do 2 f_equal. apply round_integer.
  rewrite (clamp_right x _ (Qlt_le_weak _ _ Hc) Hx).
  unfold Qdiv. rewrite Qmult_inv_r; [apply Qmult_1_l |].
  intros E. rewrite E in Hc. now apply Qlt_irrefl in Hc.
Qed.

Lemma cursorPos_end_witness :
  cursorPos 250 300 120 "hello world" = Num 11.
Proof.
  apply (cursorPos_end 250 300 120 "hello world");
    [reflexivity | reflexivity | discriminate].
Defined.

(** X3. The position the callback computes is NaN exactly when
    [scrollWidth] is positive and [clientWidth] is 0 (the ratio is then
    0 / 0); it is never infinite. *)
Theorem cursorPos_NaN_iff (x : Q) (textWidth containerWidth : Z)
    (value : string) :
  (cursorPos x textWidth containerWidth value = NaN <->
   (0 < textWidth)%Z /\ containerWidth = 0%Z) /\
  (forall negative,
     cursorPos x textWidth containerWidth value <> Infinity negative).
Proof.
  unfold cursorPos.
  destruct (0 <? textWidth)%Z eqn:Ht.
  - apply Z.ltb_lt in Ht. unfold js_div.
    destruct (Z.eq_dec containerWidth 0%Z) as [-> | Hz].
    + assert (R : Qeq_bool (Math_max 0 (Math_min x (inject_Z 0))) 0 = true).
      { apply Qeq_bool_iff. apply Qle_antisym.
        - now apply (clamp_bounds x (inject_Z 0)).
        - apply Math_max_ge_l. }
      change (Qeq_bool (inject_Z 0) 0) with true. cbv iota.
      rewrite R. cbn [js_mul Math_round]. split; [tauto | discriminate].
    + destruct (Qeq_bool (inject_Z containerWidth) 0) eqn:E.
      { apply Qeq_bool_iff in E.
        change 0%Q with (inject_Z 0) in E.
        now apply (proj1 (inject_Z_injective _ _)) in E. }
      cbn [js_mul Math_round]. split; [| discriminate].
      split; [discriminate |]. intros [_ ->]. now destruct Hz.
  - cbn [js_mul Math_round]. split; [| discriminate].
    split; [discriminate |]. intros [Hp _].
    apply Z.ltb_lt in Hp. congruence.
Qed.

(** ** Firefox detection *)

Lemma prefix_app (p s : string) :
  String.prefix p s = true <-> exists post, s = (p ++ post)%string.
Proof.
  revert s. induction p as [|a p IH]; intros s.
  - split; [intros _; now exists s | intros _; now destruct s].
  - destruct s as [|b s]; cbn;
      [split; [discriminate | intros [post E]; discriminate E] |].
    destruct (ascii_dec a b) as [<- | Hab].
    + rewrite IH. split; intros [post E]; exists post.
      * exact (f_equal (String a) E).
      * change (String a s = String a (p ++ post)%string) in E. congruence.
    + split; [discriminate | intros [post E]].
      change (String b s = String a (p ++ post)%string) in E. congruence.
Qed.

Lemma includes_spec (s sub : string) :
  includes s sub = true <-> exists pre post, s = (pre ++ sub ++ post)%string.
Proof.
  induction s as [|c s IH]; cbn [includes]; rewrite orb_true_iff, prefix_app.
  - split.
    + intros [[post E] | F]; [| discriminate]. now exists "", post.
    + intros (pre & post & E). left.
      destruct pre; [now exists post | discriminate E].
  - rewrite IH. split.
    + intros [[post E] | (pre & post & E)].
      * now exists "", post.
      * exists (String c pre), post. exact (f_equal (String c) E).
    + intros (pre & post & E). destruct pre as [|c' pre].
      * left. now exists post.
      * right. exists pre, post.
        change (String c s = String c' (pre ++ sub ++ post)%string) in E.
        congruence.
Qed.

Lemma lower_ascii_idem (c : ascii) : lower_ascii (lower_ascii c) = lower_ascii c.
Proof. destruct c as [[] [] [] [] [] [] [] []]; reflexivity. Qed.

Lemma toLowerCase_idem (s : string) : toLowerCase (toLowerCase s) = toLowerCase s.
Proof.
  induction s as [|c s IH]; [reflexivity |].
  cbn. now rewrite lower_ascii_idem, IH.
Qed.

Lemma or_empty (s : string) : (if String.eqb s "" then "" else s) = s.
Proof. now destruct s. Qed.

(** X5. [isFirefoxBrowser] is true exactly when there is a [navigator]
    whose [userAgent] reads, without throwing, as a string that holds
    "firefox" once put in lower case; so the detection does not depend on
    the case of the user agent. *)
Theorem isFirefoxBrowser_true_iff (navigator : option Navigator) :
  (isFirefoxBrowser_init navigator = Return true <->
   exists nav ua pre post,
     navigator = Some nav /\ userAgent nav = Return (Some ua) /\
     toLowerCase ua = (pre ++ "firefox" ++ post)%string) /\
  (forall ua,
     isFirefoxBrowser_init (Some {| userAgent := Return (Some (toLowerCase ua)) |}) =
     isFirefoxBrowser_init (Some {| userAgent := Return (Some ua) |})).
Proof.
  split.
  - destruct navigator as [[[[ua|]|e]]|]; cbn.
    + rewrite or_empty. split.
      * intros E. injection E as E. apply includes_spec in E.
        destruct E as (pre & post & E).
        now exists {| userAgent := Return (Some ua) |}, ua, pre, post.
      * intros (nav & ua' & pre & post & E1 & E2 & E3).
        injection E1 as <-. cbn in E2. injection E2 as <-.
        f_equal. apply includes_spec. now exists pre, post.
    + split; [discriminate |].
      intros (nav & ua' & pre & post & E1 & E2 & E3).
      injection E1 as <-. discriminate E2.
    + split; [discriminate |].
      intros (nav & ua' & pre & post & E1 & E2 & E3).
      injection E1 as <-. discriminate E2.
    + split; [discriminate |].
      intros (nav & ua' & pre & post & E1 & E2 & E3). discriminate E1.
  - intros ua. cbn. now rewrite !or_empty, toLowerCase_idem.
Qed.

(** ** The deferred callback and the handlers as a whole *)


(** X8. [onEnter], [onEscape], [onChangeValue] and [onUpdate] stay inside
    [Input]: the rendered element has no prop under these names, whatever
    the caller passed.  It always has a [ref] and a [className], made from
    the caller's. *)
Theorem Input_keeps_its_own_props (all : gmap string PropValue) :
  Forall (fun name => Input all !! name = None)
    ["onEnter"; "onEscape"; "onChangeValue"; "onUpdate"] /\
  Input all !! "ref" = Some (RefCallback (all !! "ref")) /\
  Input all !! "className" = Some (ClassName (all !! "className")).
Proof.
  assert (D : forall name,
             In name ["ref"; "onEnter"; "onEscape"; "onChangeValue";
                      "onUpdate"; "className"] ->
             Input all !! name =
             if decide (name = "className")
             then Some (ClassName (all !! "className"))
             else if decide (name = "ref")
                  then Some (RefCallback (all !! "ref"))
                  else None).
  { intros name Hn. rewrite Input_other.
    - now rewrite (rest_props_destructured all name Hn).
    - cbn in *. intuition (subst; discriminate). }
  split; [| split].
  - repeat constructor; rewrite D by (cbn; tauto); reflexivity.
  - rewrite D by (cbn; tauto). reflexivity.
  - rewrite D by (cbn; tauto). reflexivity.
Qed.

(** ** Several clicks and the timer queue *)

Section Queue.
Context {Node : Type} `{Browser Node}.
Implicit Types (w : @World Node) (all : gmap string PropValue).

Lemma run_next_timer_cons w t :
  forall rest, timers w = t :: rest ->
  exists r w' delta,
    run_next_timer w = Some (r, w') /\
    timers w' = rest /\
    calls w' = calls w ++ delta /\
    length (List.filter writes_selection delta) = 1%nat.
Proof.
  intros rest E. unfold run_next_timer. rewrite E.
  destruct t as [[x] ms]. cbn [callback].
  rewrite run_closure_eq. cbn zeta.
  destruct (dom_setSelectionRange _ _ _); do 3 eexists;
    (split; [reflexivity |]); cbn [timers calls];
    (split; [reflexivity |]); (split; [reflexivity |]); reflexivity.
Qed.

Lemma run_timers_drains (n : nat) :
  forall w, length (timers w) = n ->
  timers (run_timers n w) = [] /\
  exists delta,
    calls (run_timers n w) = calls w ++ delta /\
    length (List.filter writes_selection delta) = n.
Proof.
  induction n as [|n IH]; intros w L.
  - cbn. split; [now apply nil_length_inv |].
    exists []. now rewrite app_nil_r.
  - destruct (timers w) as [|t rest] eqn:E; [discriminate L |].
    destruct (run_next_timer_cons w t rest E) as (r & w' & d1 & R & T & C & S1).
    cbn [run_timers]. rewrite R.
    assert (L' : length (timers w') = n) by (rewrite T; now injection L).
    destruct (IH w' L') as [I1 (d2 & I2 & I3)].
    split; [exact I1 |].
    exists (d1 ++ d2). rewrite I2, C, <- app_assoc. split; [reflexivity |].
    rewrite List.filter_app, length_app, S1, I3. reflexivity.
Qed.

End Queue.

(** X10. Running the timer queue for as many turns as there are pending
    timers empties it: the callbacks schedule nothing new, and each pending
    timer accounts for exactly one [setSelectionRange] call. *)
Theorem timer_queue_drains {Node : Type} `{Browser Node} (w : @World Node) :
  let w' := run_timers (length (timers w)) w in
  timers w' = [] /\
  run_next_timer w' = None /\
  exists delta,
    calls w' = calls w ++ delta /\
    length (List.filter writes_selection delta) = length (timers w).
Proof.
  cbn zeta.
  destruct (run_timers_drains (length (timers w)) w eq_refl) as [T D].
  split; [exact T | split; [| exact D]].
  unfold run_next_timer. now rewrite T.
Qed.

(** ** BigInput and ResponsiveInput *)

Section VariantsFacts.
Variable cx : string -> option PropValue -> string.
Variable defaultBigInputClassName : string.
Variable class_function : string -> Callback -> Callback.
Implicit Types (all : gmap string PropValue).

Lemma rest_props_className all (c : PropValue) :
  rest_props (<["className" := c]> (delete "className" all)) = rest_props all.
Proof.
  apply map_eq. intros k.
  destruct (decide (In k ["ref"; "onEnter"; "onEscape"; "onChangeValue";
                          "onUpdate"; "className"])) as [Hk | Hk].
  - now rewrite !rest_props_destructured.
  - rewrite !rest_props_lookup by exact Hk.
    assert (k <> "className") by (intros ->; apply Hk; cbn; tauto).
    now rewrite lookup_insert_ne, lookup_delete_ne.
Qed.

Lemma BigInput_lookup all (name : string) :
  name <> "className" -> BigInput cx defaultBigInputClassName class_function all !! name = Input all !! name.
Proof.
  intros Hn. unfold BigInput. cbn zeta.
  set (c := bigClassName _ _ _ _).
  assert (L : forall k, k <> "className" ->
              (<["className" := c]> (delete "className" all)) !! k = all !! k)
    by (intros k Hk; now rewrite lookup_insert_ne, lookup_delete_ne).
  destruct (decide (In name ["onClick"; "onKeyUp"; "onBlur"; "onChange"]))
    as [Hh | Hh].
  - cbn in Hh. destruct Hh as [<- | [<- | [<- | [<- | []]]]].
    + now rewrite !Input_onClick, rest_props_className.
    + now rewrite !Input_onKeyUp, rest_props_className, !L.
    + now rewrite !Input_onBlur, rest_props_className, !L.
    + now rewrite !Input_onChange, rest_props_className, !L.
  - rewrite !Input_other by exact Hh. rewrite rest_props_className.
    destruct (rest_props all !! name); [reflexivity |].
    rewrite decide_False by exact Hn.
    rewrite (decide_False (P := name = "className")) by exact Hn.
    case_decide; [| reflexivity]. now rewrite L.
Qed.

Lemma BigInput_className all :
  BigInput cx defaultBigInputClassName class_function all !! "className" =
  Some (ClassName
          (Some (bigClassName cx defaultBigInputClassName class_function
                   (all !! "className")))).
Proof.
  unfold BigInput. cbn zeta. rewrite Input_other by (cbn; intuition discriminate).
  rewrite rest_props_destructured by (cbn; tauto).
  cbn. now rewrite lookup_insert_eq.
Qed.

Lemma BigInput_fire {Node : Type} `{Browser Node} (isFirefoxBrowser : bool)
    all (name : string) (ev : Event) (w : @World Node) :
  fire isFirefoxBrowser (BigInput cx defaultBigInputClassName class_function all) name ev w =
  fire isFirefoxBrowser (Input all) name ev w.
Proof.
  unfold fire. destruct (decide (name = "className")) as [-> | Hn].
  - rewrite BigInput_className.
    rewrite Input_other by (cbn; intuition discriminate).
    rewrite rest_props_destructured by (cbn; tauto). reflexivity.
  - now rewrite BigInput_lookup.
Qed.

(** X11. [BigInput] renders what [Input] renders for the same props, but
    for the class: every prop other than [className] is the same, the class
    is the caller's composed with the big default, and so every event is
    handled exactly as by [Input]. *)
Theorem BigInput_is_Input_but_for_class {Node : Type} `{Browser Node}
    (isFirefoxBrowser : bool) all :
  (forall name, name <> "className" -> BigInput cx defaultBigInputClassName class_function all !! name = Input all !! name) /\
  BigInput cx defaultBigInputClassName class_function all !! "className" =
    Some (ClassName
            (Some (bigClassName cx defaultBigInputClassName class_function
                     (all !! "className")))) /\
  (forall name ev (w : @World Node),
     fire isFirefoxBrowser (BigInput cx defaultBigInputClassName class_function all) name ev w =
     fire isFirefoxBrowser (Input all) name ev w).
Proof.
  split; [| split].
  - intros name. apply BigInput_lookup.
  - apply BigInput_className.
  - intros name ev w. apply BigInput_fire.
Qed.

(** X12. Whether [useResponsive] reports a narrow width or not,
    [ResponsiveInput] handles every event as [Input] does with the same
    props, and the two widths differ in the [className] prop only. *)
Theorem ResponsiveInput_handles_as_Input {Node : Type} `{Browser Node}
    (isFirefoxBrowser : bool) (isNarrowWidth : bool) all :
  let responsive :=
    ResponsiveInput cx defaultBigInputClassName class_function in
  (forall name ev (w : @World Node),
     fire isFirefoxBrowser (responsive isNarrowWidth all) name ev w =
     fire isFirefoxBrowser (Input all) name ev w) /\
  (forall name, name <> "className" ->
     responsive true all !! name = responsive false all !! name).
Proof.
  cbn zeta. split.
  - intros name ev w. unfold ResponsiveInput.
    destruct isNarrowWidth; [apply BigInput_fire | reflexivity].
  - intros name Hn. unfold ResponsiveInput. now apply BigInput_lookup.
Qed.

End VariantsFacts.

Lemma BigInput_is_Input_but_for_class_witness :
  BigInput sample_cx "big" sample_class_function sample_props !! "onFocus" =
  Input sample_props !! "onFocus".
Proof.
  refine (proj1 (BigInput_is_Input_but_for_class sample_cx "big"
                   sample_class_function (Node := SimpleNode) true
                   sample_props) "onFocus" _).
  discriminate.
Defined.

(** * Properties of Input.tsx in full *)

Import InputFull.

(** ** binary64 rounding *)

Lemma pow2_pos (k : Z) : (0 < pow2 k)%Q.
Proof. apply Qpower_0_lt. reflexivity. Qed.

Lemma pow2_add (a b : Z) : (pow2 (a + b) == pow2 a * pow2 b)%Q.
Proof. apply Qpower_plus. discriminate. Qed.

Lemma pow2_nat (n : Z) : (0 <= n)%Z -> (pow2 n == inject_Z (2 ^ n))%Q.
Proof. intros Hn. unfold pow2. now rewrite Zpower_Qpower. Qed.

Lemma pow2_le (a b : Z) : (a <= b)%Z -> (pow2 a <= pow2 b)%Q.
Proof. intros H. apply Qpower_le_compat_l; [exact H | discriminate]. Qed.

Lemma pow2_lt_inv (a b : Z) : (pow2 a < pow2 b)%Q -> (a < b)%Z.
Proof. intros H. apply (Qpower_lt_compat_l_inv 2); [exact H | reflexivity]. Qed.

Lemma pow2_cancel (e : Z) : (pow2 (- e) * pow2 e == 1)%Q.
Proof. rewrite <- pow2_add. now replace (- e + e)%Z with 0%Z by lia. Qed.

Lemma div_pow2 (q : Q) (e : Z) : (q / pow2 e == q * pow2 (- e))%Q.
Proof. unfold Qdiv, pow2. now rewrite Qpower_opp. Qed.

(** [ilog2 q] is below the binary logarithm of [q]. *)
Lemma ilog2_le (q : Q) : (0 < q)%Q -> (pow2 (ilog2 q) <= q)%Q.
Proof.
  intros Hq. unfold ilog2.
  set (k := (Z.log2 (Qnum q) - Z.log2 (Z.pos (Qden q)))%Z).
  destruct (Qle_bool (pow2 k) q) eqn:E; [now apply Qle_bool_iff |].
  destruct q as [n d]. cbn [Qnum Qden] in *.
  assert (Hn : (0 < n)%Z) by (unfold Qlt in Hq; cbn in Hq; lia).
  destruct (Z.log2_spec n Hn) as [Hn1 _].
  destruct (Z.log2_spec (Z.pos d) (Pos2Z.is_pos d)) as [_ Hd2].
  pose proof (Z.log2_nonneg n) as Ln.
  pose proof (Z.log2_nonneg (Z.pos d)) as Ld.
  rewrite (Qmake_Qdiv n d).
  apply Qle_shift_div_l; [reflexivity |].
  apply Qle_trans with (pow2 (k - 1) * pow2 (Z.log2 (Z.pos d) + 1))%Q.
  - apply Qmult_le_l; [apply pow2_pos |].
    rewrite pow2_nat by lia. rewrite <- Zle_Qle.
    replace (Z.log2 (Z.pos d) + 1)%Z with (Z.succ (Z.log2 (Z.pos d))) by lia. lia.
  - rewrite <- pow2_add.
    replace (k - 1 + (Z.log2 (Z.pos d) + 1))%Z with (Z.log2 n) by (unfold k; lia).
    rewrite pow2_nat by lia. now rewrite <- Zle_Qle.
Qed.

Lemma ilog2_lt_bound (q : Q) (K : Z) :
  (0 < q)%Q -> (q < pow2 K)%Q -> (ilog2 q < K)%Z.
Proof.
  intros Hq Hb. apply pow2_lt_inv.
  apply Qle_lt_trans with q; [now apply ilog2_le | exact Hb].
Qed.

(** Rounding to the nearest integer stays within integer bounds. *)
Lemma round_half_even_ge (q : Q) (A : Z) :
  (inject_Z A <= q)%Q -> (A <= round_half_even q)%Z.
Proof.
  intros H. unfold round_half_even.
  assert (F : (A <= Qfloor q)%Z)
    by (rewrite <- (Qfloor_Z A); now apply Qfloor_resp_le).
  destruct (_ ?= _)%Q; [destruct (Z.even _) | |]; lia.
Qed.

Lemma round_half_even_le (q : Q) (B : Z) :
  (q <= inject_Z B)%Q -> (round_half_even q <= B)%Z.
Proof.
  intros H. unfold round_half_even.
  assert (F : (Qfloor q <= B)%Z)
    by (rewrite <- (Qfloor_Z B); now apply Qfloor_resp_le).
  destruct (Z.eq_dec (Qfloor q) B) as [E | NE].
  - assert (L : (q - inject_Z (Qfloor q) <= 0)%Q).
    { rewrite E. apply (Qplus_le_l _ _ (inject_Z B)). ring_simplify. exact H. }
    destruct (_ ?= _)%Q eqn:C.
    + apply Qeq_alt in C. rewrite C in L. exfalso. now apply L.
    + lia.
    + apply Qgt_alt in C.
      exfalso. apply (Qlt_irrefl (1 # 2)).
      apply Qlt_le_trans with (q - inject_Z (Qfloor q))%Q; [exact C |].
      apply Qle_trans with 0%Q; [exact L | discriminate].
  - destruct (_ ?= _)%Q; [destruct (Z.even _) | |]; lia.
Qed.

(** A value between two integers below 2^53 rounds to a value between
    them: integers of that size are binary64 numbers. *)
Lemma round64_pos_sandwich (q : Q) (A B : Z) :
  (0 < q)%Q -> (inject_Z A <= q)%Q -> (q <= inject_Z B)%Q ->
  (B < 2 ^ 53)%Z ->
  exists r, round64_pos q = Num r /\ (inject_Z A <= r)%Q /\ (r <= inject_Z B)%Q.
Proof.
  intros Hq HA HB Hlim. unfold round64_pos.
  set (e := Z.max (-1074) (ilog2 q - 52)).
  assert (He : (e <= 0)%Z).
  { assert (ilog2 q < 53)%Z; [| unfold e; lia].
    apply ilog2_lt_bound; [exact Hq |].
    apply Qle_lt_trans with (inject_Z B); [exact HB |].
    rewrite pow2_nat by lia. now rewrite <- Zlt_Qlt. }
  set (P := (2 ^ (- e))%Z).
  assert (HP : (pow2 (- e) == inject_Z P)%Q) by (apply pow2_nat; lia).
  assert (P0 : (0 <= inject_Z P)%Q).
  { change 0%Q with (inject_Z 0). rewrite <- Zle_Qle. unfold P.
    apply Z.pow_nonneg. lia. }
  assert (Hone : (inject_Z P * pow2 e == 1)%Q)
    by (rewrite <- HP; apply pow2_cancel).
  set (m := round_half_even (q / pow2 e)).
  assert (Hm1 : (A * P <= m)%Z).
  { apply round_half_even_ge. rewrite div_pow2, HP, inject_Z_mult.
    now apply Qmult_le_compat_r. }
  assert (Hm2 : (m <= B * P)%Z).
  { apply round_half_even_le. rewrite div_pow2, HP, inject_Z_mult.
    now apply Qmult_le_compat_r. }
  assert (R1 : (inject_Z A <= inject_Z m * pow2 e)%Q).
  { apply Qle_trans with (inject_Z (A * P) * pow2 e)%Q.
    - rewrite inject_Z_mult, <- Qmult_assoc, Hone, Qmult_1_r. apply Qle_refl.
    - apply Qmult_le_compat_r; [now rewrite <- Zle_Qle |].
      apply Qlt_le_weak, pow2_pos. }
  assert (R2 : (inject_Z m * pow2 e <= inject_Z B)%Q).
  { apply Qle_trans with (inject_Z (B * P) * pow2 e)%Q.
    - apply Qmult_le_compat_r; [now rewrite <- Zle_Qle |].
      apply Qlt_le_weak, pow2_pos.
    - rewrite inject_Z_mult, <- Qmult_assoc, Hone, Qmult_1_r. apply Qle_refl. }
  destruct (Qle_bool (pow2 1024) (inject_Z m * pow2 e)) eqn:O.
  - exfalso. apply Qle_bool_iff in O.
    assert (F : (pow2 1024 <= inject_Z B)%Q) by (eapply Qle_trans; eauto).
    rewrite pow2_nat in F by lia. rewrite <- Zle_Qle in F.
    assert (2 ^ 53 <= 2 ^ 1024)%Z by (apply Z.pow_le_mono_r; lia). lia.
  - eexists. split; [reflexivity | split; assumption].
Qed.

Lemma round64_sandwich (q : Q) (A B : Z) :
  (0 <= inject_Z A)%Q -> (inject_Z A <= q)%Q -> (q <= inject_Z B)%Q ->
  (B < 2 ^ 53)%Z ->
  exists r, round64 q = Num r /\ (inject_Z A <= r)%Q /\ (r <= inject_Z B)%Q.
Proof.
  intros H0 HA HB Hlim. unfold round64.
  destruct (q ?= 0)%Q eqn:C.
  - apply Qeq_alt in C. exists 0%Q. split; [reflexivity |].
    rewrite <- C. now split.
  - apply Qlt_alt in C. exfalso. apply (Qlt_irrefl q).
    apply Qlt_le_trans with 0%Q; [exact C |]. now apply Qle_trans with (inject_Z A).
  - apply Qgt_alt in C. now apply round64_pos_sandwich.
Qed.

Lemma ilog2_lt (q : Q) : (0 < q)%Q -> (q < pow2 (ilog2 q + 1))%Q.
Proof.
  intros Hq. unfold ilog2.
  set (k := (Z.log2 (Qnum q) - Z.log2 (Z.pos (Qden q)))%Z).
  destruct (Qle_bool (pow2 k) q) eqn:E.
  - destruct q as [n d]. cbn [Qnum Qden] in *.
    assert (Hn : (0 < n)%Z) by (unfold Qlt in Hq; cbn in Hq; lia).
    destruct (Z.log2_spec n Hn) as [_ Hn2].
    destruct (Z.log2_spec (Z.pos d) (Pos2Z.is_pos d)) as [Hd1 _].
    pose proof (Z.log2_nonneg n) as Ln.
    pose proof (Z.log2_nonneg (Z.pos d)) as Ld.
    rewrite (Qmake_Qdiv n d).
    apply Qlt_shift_div_r; [reflexivity |].
    apply Qlt_le_trans with (pow2 (k + 1) * pow2 (Z.log2 (Z.pos d)))%Q.
    + rewrite <- pow2_add.
      replace (k + 1 + Z.log2 (Z.pos d))%Z with (Z.succ (Z.log2 n))
        by (unfold k; lia).
      rewrite pow2_nat by lia. now rewrite <- Zlt_Qlt.
    + apply Qmult_le_l; [apply pow2_pos |].
      rewrite pow2_nat by lia. now rewrite <- Zle_Qle.
  - replace (k - 1 + 1)%Z with k by lia.
    apply Qnot_le_lt. intros F. apply Qle_bool_iff in F. congruence.
Qed.

Lemma ilog2_mono (q1 q2 : Q) :
  (0 < q1)%Q -> (q1 <= q2)%Q -> (ilog2 q1 <= ilog2 q2)%Z.
Proof.
  intros H1 H12.
  assert (H2 : (0 < q2)%Q) by (eapply Qlt_le_trans; eauto).
  apply Z.lt_succ_r. apply pow2_lt_inv.
  apply Qle_lt_trans with q1; [now apply ilog2_le |].
  apply Qle_lt_trans with q2; [exact H12 |].
  unfold Z.succ. now apply ilog2_lt.
Qed.

Lemma round_half_even_mono (q1 q2 : Q) :
  (q1 <= q2)%Q -> (round_half_even q1 <= round_half_even q2)%Z.
Proof.
  intros H. pose proof (Qfloor_resp_le _ _ H) as F.
  destruct (Z.eq_dec (Qfloor q1) (Qfloor q2)) as [E | NE].
  - unfold round_half_even. rewrite <- E.
    assert (D : (q1 - inject_Z (Qfloor q1) <= q2 - inject_Z (Qfloor q1))%Q)
      by (apply Qplus_le_l; exact H).
    destruct (q1 - _ ?= _)%Q eqn:C1, (q2 - _ ?= _)%Q eqn:C2;
      try lia; try (destruct (Z.even _); lia); exfalso;
      repeat match goal with
        | H : (_ ?= _)%Q = Eq |- _ => apply Qeq_alt in H
        | H : (_ ?= _)%Q = Lt |- _ => apply Qlt_alt in H
        | H : (_ ?= _)%Q = Gt |- _ => apply Qgt_alt in H
        end.
    + rewrite C1 in D. apply (Qlt_irrefl (1 # 2)). eapply Qle_lt_trans; eauto.
    + rewrite C2 in D. apply (Qlt_irrefl (1 # 2)). eapply Qlt_le_trans; eauto.
    + apply (Qlt_irrefl (1 # 2)).
      eapply Qlt_trans; [exact C1 |]. eapply Qle_lt_trans; eauto.
  - apply Z.le_trans with (Qfloor q1 + 1)%Z.
    + unfold round_half_even.
      destruct (_ ?= _)%Q; [destruct (Z.even _) | |]; lia.
    + apply Z.le_trans with (Qfloor q2); [lia |].
      unfold round_half_even.
      destruct (_ ?= _)%Q; [destruct (Z.even _) | |]; lia.
Qed.

Lemma round64_pos_nonneg (q r : Q) :
  (0 < q)%Q -> round64_pos q = Num r -> (0 <= r)%Q.
Proof.
  intros Hq. unfold round64_pos.
  destruct (Qle_bool _ _); [discriminate |]. intros [= <-].
  apply Qmult_le_0_compat; [| apply Qlt_le_weak, pow2_pos].
  change 0%Q with (inject_Z 0). rewrite <- Zle_Qle.
  apply round_half_even_ge.
  apply Qlt_le_weak, Qlt_shift_div_l; [apply pow2_pos |].
  now rewrite Qmult_0_l.
Qed.

(** Rounding is monotone on the positive numbers. *)
Lemma round64_pos_mono (q1 q2 r1 r2 : Q) :
  (0 < q1)%Q -> (q1 <= q2)%Q ->
  round64_pos q1 = Num r1 -> round64_pos q2 = Num r2 -> (r1 <= r2)%Q.
Proof.
  intros H1 H12.
  assert (H2 : (0 < q2)%Q) by (eapply Qlt_le_trans; eauto).
  pose proof (ilog2_mono q1 q2 H1 H12) as L.
  unfold round64_pos.
  set (e1 := Z.max (-1074) (ilog2 q1 - 52)).
  set (e2 := Z.max (-1074) (ilog2 q2 - 52)).
  destruct (Qle_bool _ _); [discriminate |]. intros [= <-].
  destruct (Qle_bool _ _); [discriminate |]. intros [= <-].
  assert (E : (e1 <= e2)%Z) by (unfold e1, e2; lia).
  destruct (Z.eq_dec e1 e2) as [<- | NE].
  - apply Qmult_le_compat_r; [| apply Qlt_le_weak, pow2_pos].
    rewrite <- Zle_Qle. apply round_half_even_mono.
    apply Qmult_le_compat_r; [exact H12 |].
    apply Qinv_le_0_compat, Qlt_le_weak, pow2_pos.
  - apply Qle_trans with (pow2 (e2 + 52)).
    + apply Qle_trans with (pow2 (e1 + 53)); [| apply pow2_le; lia].
      rewrite (Z.add_comm e1 53), pow2_add.
      apply Qmult_le_compat_r; [| apply Qlt_le_weak, pow2_pos].
      rewrite (pow2_nat 53) by lia. rewrite <- Zle_Qle.
      apply round_half_even_le. rewrite <- (pow2_nat 53) by lia.
      apply Qle_shift_div_r; [apply pow2_pos |].
      rewrite <- pow2_add.
      apply Qle_trans with (pow2 (ilog2 q1 + 1));
        [apply Qlt_le_weak, ilog2_lt, H1 | apply pow2_le; unfold e1; lia].
    + rewrite (Z.add_comm e2 52), pow2_add.
      apply Qmult_le_compat_r; [| apply Qlt_le_weak, pow2_pos].
      rewrite (pow2_nat 52) by lia. rewrite <- Zle_Qle.
      apply round_half_even_ge. rewrite <- (pow2_nat 52) by lia.
      apply Qle_shift_div_l; [apply pow2_pos |].
      rewrite <- pow2_add.
      apply Qle_trans with (pow2 (ilog2 q2)); [| now apply ilog2_le].
      apply pow2_le. unfold e1, e2 in *. lia.
Qed.

Lemma round64_mono (q1 q2 r1 r2 : Q) :
  (0 <= q1)%Q -> (q1 <= q2)%Q ->
  round64 q1 = Num r1 -> round64 q2 = Num r2 -> (r1 <= r2)%Q.
Proof.
  intros H1 H12. unfold round64.
  destruct (q1 ?= 0)%Q eqn:C1.
  - intros [= <-]. destruct (q2 ?= 0)%Q eqn:C2.
    + intros [= <-]. apply Qle_refl.
    + apply Qlt_alt in C2. exfalso. apply (Qlt_irrefl q2).
      apply Qlt_le_trans with 0%Q; [exact C2 |]. eapply Qle_trans; eauto.
    + apply Qgt_alt in C2. now apply round64_pos_nonneg.
  - apply Qlt_alt in C1. exfalso. apply (Qlt_irrefl q1).
    eapply Qlt_le_trans; eauto.
  - apply Qgt_alt in C1. destruct (q2 ?= 0)%Q eqn:C2.
    + apply Qeq_alt in C2. exfalso. apply (Qlt_irrefl 0).
      apply Qlt_le_trans with q1; [exact C1 |]. now rewrite <- C2.
    + apply Qlt_alt in C2. exfalso. apply (Qlt_irrefl 0).
      apply Qlt_le_trans with q1; [exact C1 |].
      apply Qle_trans with q2; [exact H12 | now apply Qlt_le_weak].
    + now apply round64_pos_mono.
Qed.

Lemma round64_not_NaN (q : Q) : round64 q <> NaN.
Proof.
  unfold round64, round64_pos.
  destruct (q ?= 0)%Q; [discriminate | |];
    now destruct (Qle_bool _ _).
Qed.

(** ** The cursor position in binary64 *)

Lemma relativeX_bounds (x : number) (containerWidth : Z) :
  x <> NaN -> (0 <= containerWidth)%Z ->
  exists r, relativeX x containerWidth = Num r /\
            (0 <= r)%Q /\ (r <= inject_Z containerWidth)%Q.
Proof.
  intros Hx Hw.
  assert (Hc : (0 <= inject_Z containerWidth)%Q)
    by (change 0%Q with (inject_Z 0); now rewrite <- Zle_Qle).
  unfold relativeX. destruct x as [q | [|] |]; cbn.
  - eexists. split; [reflexivity |]. now apply clamp_bounds.
  - exists 0%Q. split; [reflexivity |]. split; [apply Qle_refl | exact Hc].
  - eexists. split; [reflexivity |]. split.
    + apply Math_max_ge_l.
    + apply Math_max_lub; [exact Hc | apply Qle_refl].
  - now destruct Hx.
Qed.

Lemma cursorPos_of_clamped (x : number) (r : Q)
    (textWidth containerWidth : Z) (value : string) :
  (0 < containerWidth)%Z ->
  (Z.of_nat (String.length value) < 2 ^ 53)%Z ->
  relativeX x containerWidth = Num r ->
  (0 <= r)%Q -> (r <= inject_Z containerWidth)%Q ->
  exists ratio product,
    (if (0 <? textWidth)%Z then round64 (r / inject_Z containerWidth)
     else Num 0) = Num ratio /\
    (0 <= ratio)%Q /\ (ratio <= 1)%Q /\
    round64 (ratio * inject_Z (Z.of_nat (String.length value))) = Num product /\
    (0 <= product)%Q /\
    (product <= inject_Z (Z.of_nat (String.length value)))%Q /\
    cursorPos x textWidth containerWidth value =
      Num (inject_Z (Qfloor (product + (1 # 2)))).
Proof.
  intros Hw Hlen Hrel Hlo Hhi.
  destruct (positive_width _ Hw) as [Hc Hne].
  pose proof (length_nonneg value) as HL.
  assert (R : exists ratio,
             (if (0 <? textWidth)%Z then round64 (r / inject_Z containerWidth)
              else Num 0) = Num ratio /\ (0 <= ratio)%Q /\ (ratio <= 1)%Q).
  { destruct (0 <? textWidth)%Z.
    - destruct (ratio_bounds r _ Hc Hlo Hhi) as [R0 R1].
      apply (round64_sandwich _ 0 1); [apply Qle_refl | exact R0 | exact R1 |].
      reflexivity.
    - exists 0%Q. split; [reflexivity |]. split; [apply Qle_refl | discriminate]. }
  destruct R as (ratio & ER & R0 & R1).
  destruct (round64_sandwich
              (ratio * inject_Z (Z.of_nat (String.length value))) 0
              (Z.of_nat (String.length value)))
    as (product & EP & P0 & P1).
  - apply Qle_refl.
  - now apply Qmult_le_0_compat.
  - apply Qle_trans with (1 * inject_Z (Z.of_nat (String.length value)))%Q.
    + now apply Qmult_le_compat_r.
    + rewrite Qmult_1_l. apply Qle_refl.
  - exact Hlen.
  - exists ratio, product. repeat (split; [assumption |]).
    unfold cursorPos. rewrite Hrel, value_length_length.
    unfold js_div. rewrite Hne.
    replace (if (0 <? textWidth)%Z
             then round64 (r / inject_Z containerWidth) else Num 0)
      with (Num ratio).
    cbn [js_mul]. rewrite EP. reflexivity.
Qed.

(** C7. For every click (whatever [clientX] and the left edge of the
    input), when [clientWidth] is strictly positive the offset is clamped to
    [0, clientWidth] before the ratio is taken: the position is computed
    from the clamped offset alone.  The position computed in binary64 is an
    integer between 0 and the length of the input's value, both included.
    (A JavaScript string has fewer than 2^53 characters.) *)
Theorem cursorPos_within_value (clientX left_edge : Q)
    (textWidth containerWidth : Z) (value : string) :
  (0 < containerWidth)%Z ->
  (Z.of_nat (String.length value) < 2 ^ 53)%Z ->
  let x := js_sub clientX left_edge in
  (exists r, relativeX x containerWidth = Num r /\
             (0 <= r)%Q /\ (r <= inject_Z containerWidth)%Q /\
             cursorPos x textWidth containerWidth value =
             Math_round
               (js_mul (if (0 <? textWidth)%Z
                        then js_div (Num r) (inject_Z containerWidth)
                        else Num 0)
                       (inject_Z (Z.of_nat (String.length value))))) /\
  exists n : Z,
    cursorPos x textWidth containerWidth value = Num (inject_Z n) /\
    (0 <= n <= Z.of_nat (String.length value))%Z.
Proof.
  intros Hw Hlen x.
  destruct (relativeX_bounds x containerWidth) as (r & Hrel & Hlo & Hhi).
  { apply round64_not_NaN. }
  { now apply Z.lt_le_incl. }
  split.
  { exists r. repeat (split; [assumption |]).
    unfold cursorPos. now rewrite Hrel, value_length_length. }
  destruct (cursorPos_of_clamped x r textWidth _ value Hw Hlen Hrel Hlo Hhi)
    as (ratio & product & _ & _ & _ & _ & P0 & P1 & E).
  eexists. split; [exact E |]. now apply round_bounds.
Qed.

Lemma cursorPos_within_value_witness :
  exists n : Z,
    cursorPos (js_sub 23 8) 300 22 "hello world" = Num (inject_Z n) /\
    (0 <= n <= 11)%Z.
Proof.
  exact (proj2 (cursorPos_within_value 23 8 300 22 "hello world"
                  eq_refl eq_refl)).
Defined.

(** The rounding shows: 15 / 22 rounds down, 11 times that is just below
    7.5, and the position is 7 where exact arithmetic gives 8. *)
Example binary64_rounding_shows :
  cursorPos (js_sub 23 8) 300 22 "hello world" = Num 7 /\
  InputTsx.cursorPos (23 - 8) 300 22 "hello world" = Num 8.
Proof. split; vm_compute; reflexivity. Qed.

(** X4. With a positive [clientWidth], the position computed in binary64 is
    monotone in the (finite) click offset: a click further to the right
    never gives an earlier position. *)
Theorem cursorPos_monotone (x1 x2 : Q) (textWidth containerWidth : Z)
    (value : string) :
  (0 < containerWidth)%Z ->
  (Z.of_nat (String.length value) < 2 ^ 53)%Z ->
  (x1 <= x2)%Q ->
  exists n1 n2 : Z,
    cursorPos (Num x1) textWidth containerWidth value = Num (inject_Z n1) /\
    cursorPos (Num x2) textWidth containerWidth value = Num (inject_Z n2) /\
    (n1 <= n2)%Z.
Proof.
  intros Hw Hlen Hx.
  destruct (positive_width _ Hw) as [Hc Hne].
  pose proof (length_nonneg value) as HL.
  set (c := inject_Z containerWidth) in *.
  set (r1 := Math_max 0 (Math_min x1 c)).
  set (r2 := Math_max 0 (Math_min x2 c)).
  destruct (clamp_bounds x1 c (Qlt_le_weak _ _ Hc)) as [L1 U1].
  destruct (clamp_bounds x2 c (Qlt_le_weak _ _ Hc)) as [L2 U2].
  assert (R12 : (r1 <= r2)%Q) by now apply Math_max_mono, Math_min_mono.
  destruct (cursorPos_of_clamped (Num x1) r1 textWidth _ value Hw Hlen
              eq_refl L1 U1)
    as (q1 & p1 & EQ1 & Q10 & _ & EP1 & _ & _ & E1).
  destruct (cursorPos_of_clamped (Num x2) r2 textWidth _ value Hw Hlen
              eq_refl L2 U2)
    as (q2 & p2 & EQ2 & Q20 & _ & EP2 & _ & _ & E2).
  do 2 eexists. split; [exact E1 | split; [exact E2 |]].
  apply Qfloor_resp_le. apply Qplus_le_compat; [| apply Qle_refl].
  assert (Q12 : (q1 <= q2)%Q).
  { destruct (0 <? textWidth)%Z.
    - refine (round64_mono _ _ _ _ _ _ EQ1 EQ2).
      + now apply ratio_bounds.
      + apply Qmult_le_compat_r; [exact R12 |].
        apply Qinv_le_0_compat. now apply Qlt_le_weak.
    - injection EQ1 as <-. injection EQ2 as <-. apply Qle_refl. }
  refine (round64_mono _ _ _ _ _ _ EP1 EP2).
  - now apply Qmult_le_0_compat.
  - now apply Qmult_le_compat_r.
Qed.

Lemma cursorPos_monotone_witness :
  exists n1 n2 : Z,
    cursorPos (Num 15) 300 22 "hello world" = Num (inject_Z n1) /\
    cursorPos (Num (31 # 2)) 300 22 "hello world" = Num (inject_Z n2) /\
    (n1 <= n2)%Z.
Proof.
  apply (cursorPos_monotone 15 (31 # 2) 300 22 "hello world");
    [reflexivity | reflexivity | discriminate].
Defined.

(** ** The edges in binary64

    At the edges of the input no operation rounds to a neighbour: the
    positions that exact arithmetic gives there (the start, the end, and
    NaN for a zero width) are those of binary64 as well. *)

Lemma round64_zero (q : Q) : (q == 0)%Q -> round64 q = Num 0.
Proof. intros E. unfold round64. apply Qeq_alt in E. now rewrite E. Qed.

Lemma round64_integer (q : Q) (n : Z) :
  (0 <= n < 2 ^ 53)%Z -> (q == inject_Z n)%Q ->
  exists r, round64 q = Num r /\ (r == inject_Z n)%Q.
Proof.
  intros [Hn0 Hn] E.
  destruct (round64_sandwich q n n) as (r & R & L & U).
  - change 0%Q with (inject_Z 0). now rewrite <- Zle_Qle.
  - rewrite E. apply Qle_refl.
  - rewrite E. apply Qle_refl.
  - exact Hn.
  - exists r. split; [exact R | now apply Qle_antisym].
Qed.

Lemma cursorPos_binary64_start (x : Q) (textWidth containerWidth : Z)
    (value : string) :
  (0 < containerWidth)%Z ->
  (x <= 0)%Q \/ (textWidth <= 0)%Z \/ value = "" ->
  cursorPos (Num x) textWidth containerWidth value = Num 0.
Proof.
  intros Hw Hcase.
  destruct (positive_width _ Hw) as [Hc Hne].
  destruct (clamp_bounds x _ (Qlt_le_weak _ _ Hc)) as [Hlo Hhi].
  unfold cursorPos, relativeX. cbn [number_min number_max].
  rewrite value_length_length.
  assert (T : exists ratio,
             (if (0 <? textWidth)%Z
              then js_div (Num (Math_max 0 (Math_min x (inject_Z containerWidth))))
                     (inject_Z containerWidth)
              else Num 0) = Num ratio /\
             (ratio * inject_Z (Z.of_nat (String.length value)) == 0)%Q).
  { destruct (0 <? textWidth)%Z eqn:Ht.
    - unfold js_div. rewrite Hne.
      destruct Hcase as [Hx | [Hs | ->]].
      + exists 0%Q. split; [| apply Qmult_0_l].
        apply round64_zero. rewrite (clamp_left x _ Hx).
        unfold Qdiv. apply Qmult_0_l.
      + apply Z.ltb_lt in Ht. exfalso.
        apply (Z.lt_irrefl 0). now apply Z.lt_le_trans with textWidth.
      + destruct (ratio_bounds _ _ Hc Hlo Hhi) as [R0 R1].
        destruct (round64_sandwich _ 0 1 (Qle_refl 0) R0 R1 eq_refl)
          as (ratio & E & _ & _).
        exists ratio. split; [exact E |]. apply Qmult_0_r.
    - exists 0%Q. split; [reflexivity | apply Qmult_0_l]. }
  destruct T as (ratio & -> & Z0).
  cbn [js_mul]. now rewrite (round64_zero _ Z0).
Qed.

Lemma cursorPos_binary64_end (x : Q) (textWidth containerWidth : Z)
    (value : string) :
  (0 < textWidth)%Z -> (0 < containerWidth)%Z ->
  (Z.of_nat (String.length value) < 2 ^ 53)%Z ->
  (inject_Z containerWidth <= x)%Q ->
  cursorPos (Num x) textWidth containerWidth value =
  Num (inject_Z (Z.of_nat (String.length value))).
Proof.
  intros Ht Hw Hlen Hx.
  destruct (positive_width _ Hw) as [Hc Hne].
  unfold cursorPos, relativeX. cbn [number_min number_max].
  rewrite value_length_length.
  apply Z.ltb_lt in Ht. rewrite Ht. unfold js_div. rewrite Hne.
  destruct (round64_integer
              (Math_max 0 (Math_min x (inject_Z containerWidth)) /
               inject_Z containerWidth) 1) as (ratio & -> & R).
  - split; [discriminate | reflexivity].
  - rewrite (clamp_right x _ (Qlt_le_weak _ _ Hc) Hx).
    apply Qmult_inv_r. intros E. rewrite E in Hc.
    now apply Qlt_irrefl in Hc.
  - cbn [js_mul].
    destruct (round64_integer
                (ratio * inject_Z (Z.of_nat (String.length value)))
                (Z.of_nat (String.length value))) as (product & -> & P).
    + split; [apply Nat2Z.is_nonneg | exact Hlen].
    + rewrite R. apply Qmult_1_l.
    + cbn [Math_round]. now rewrite (round_integer _ _ P).
Qed.

Lemma cursorPos_binary64_NaN_iff (x : Q) (textWidth containerWidth : Z)
    (value : string) :
  cursorPos (Num x) textWidth containerWidth value = NaN <->
  (0 < textWidth)%Z /\ containerWidth = 0%Z.
Proof.
  assert (N : forall q, Math_round (round64 q) <> NaN).
  { intros q. pose proof (round64_not_NaN q) as Hq.
    now destruct (round64 q). }
  unfold cursorPos, relativeX. cbn [number_min number_max].
  destruct (0 <? textWidth)%Z eqn:Ht.
  - apply Z.ltb_lt in Ht. unfold js_div.
    destruct (Z.compare_spec containerWidth 0) as [-> | Hneg | Hpos].
    + assert (R : Qeq_bool (Math_max 0 (Math_min x (inject_Z 0))) 0 = true).
      { apply Qeq_bool_iff. apply Qle_antisym.
        - now apply (clamp_bounds x (inject_Z 0)).
        - apply Math_max_ge_l. }
      change (Qeq_bool (inject_Z 0) 0) with true. cbv iota.
      rewrite R. cbn [js_mul Math_round]. tauto.
    + assert (Hc : (inject_Z containerWidth < 0)%Q)
        by (change 0%Q with (inject_Z 0); now rewrite <- Zlt_Qlt).
      assert (Hne : Qeq_bool (inject_Z containerWidth) 0 = false).
      { destruct (Qeq_bool _ 0) eqn:E; [| reflexivity].
        apply Qeq_bool_iff in E. rewrite E in Hc. now apply Qlt_irrefl in Hc. }
      rewrite Hne.
      assert (M : (Math_max 0 (Math_min x (inject_Z containerWidth)) == 0)%Q).
      { apply Qle_antisym; [| apply Math_max_ge_l].
        apply Math_max_lub; [apply Qle_refl |].
        apply Qle_trans with (inject_Z containerWidth);
          [apply Math_min_le_r | now apply Qlt_le_weak]. }
      rewrite round64_zero by (rewrite M; unfold Qdiv; apply Qmult_0_l).
      cbn [js_mul]. split; [intros E; now apply N in E |].
      intros [_ ->]. now apply Z.lt_irrefl in Hneg.
    + destruct (positive_width _ Hpos) as [Hc Hne]. rewrite Hne.
      destruct (clamp_bounds x _ (Qlt_le_weak _ _ Hc)) as [Hlo Hhi].
      destruct (ratio_bounds _ _ Hc Hlo Hhi) as [R0 R1].
      destruct (round64_sandwich _ 0 1 (Qle_refl 0) R0 R1 eq_refl)
        as (ratio & -> & _ & _).
      cbn [js_mul]. split; [intros E; now apply N in E |].
      intros [_ ->]. now apply Z.lt_irrefl in Hpos.
  - cbn [js_mul]. split; [intros E; now apply N in E |].
    intros [Hp _]. apply Z.ltb_lt in Hp. congruence.
Qed.

(** ** What each handler does, whatever the caller's functions do *)

Ltac unfold_full :=
  unfold handleClick, onKeyUp, onBlur, onChange, run_closure,
    getBoundingClientRect, setTimeout, setSelectionRange, focus,
    call_optional, run_function, currentTarget, try_catch, bind, log, ret,
    call_of, thrown_by, node_after, completion, provided in *.

Ltac run_calls :=
  cbn;
  repeat match goal with
    | |- context [call_function ?g ?a ?n] =>
        destruct (call_function g a n) as [[?|] ?]; cbn
    end.

Section FullHandlers.
Context {Node : Type} `{Browser Node} `{Caller Node}.
Implicit Types (w : @World Node) (props all : gmap string PropValue).

Lemma made_of_full {A} (m : M A) w r n ts delta :
  m w = (r, {| node := n; timers := ts; calls := calls w ++ delta |}) ->
  made m w = delta.
Proof. intros E. unfold made. rewrite E. cbn. apply drop_app_length. Qed.

Lemma handleClick_full (isFirefoxBrowser : bool) props e w :
  let x := js_sub (clientX e) (dom_rect_left (node w)) in
  let f := props !! "onClick" in
  let args := [AEvent (EMouse e)] in
  handleClick isFirefoxBrowser props e w =
  (completion (thrown_by f args (node w)),
   {| node := node_after f args (node w);
      timers := timers w ++
        (if isFirefoxBrowser
         then [{| callback := CursorFix x; delay := 0 |}] else []);
      calls := calls w ++
        (if isFirefoxBrowser
         then [Call_getBoundingClientRect; Call_setTimeout (CursorFix x) 0]
         else []) ++
        call_of "onClick" f args |}).
Proof.
  destruct w as [n ts cs]. cbn zeta. unfold_full.
  destruct isFirefoxBrowser, (props !! "onClick") as [[g|s]|];
    run_calls; rewrite <- ?app_assoc, ?app_nil_r; reflexivity.
Qed.

Lemma onBlur_full props onUpdate w :
  let a1 := [AString (dom_value (node w)); AEvent EFocus] in
  let n1 := node_after onUpdate a1 (node w) in
  let f2 := props !! "onBlur" in
  let a2 := [AEvent EFocus] in
  onBlur props onUpdate w =
  match thrown_by onUpdate a1 (node w) with
  | Some ex =>
      (Throw ex,
       {| node := n1; timers := timers w;
          calls := calls w ++ call_of "onUpdate" onUpdate a1 |})
  | None =>
      (completion (thrown_by f2 a2 n1),
       {| node := node_after f2 a2 n1; timers := timers w;
          calls := calls w ++ call_of "onUpdate" onUpdate a1 ++
                   call_of "onBlur" f2 a2 |})
  end.
Proof.
  destruct w as [n ts cs]. cbn zeta. unfold_full.
  destruct onUpdate as [[f|s]|], (props !! "onBlur") as [[g|t]|];
    run_calls; rewrite <- ?app_assoc, ?app_nil_r; reflexivity.
Qed.

Lemma onChange_full props onChangeValue w :
  let a1 := [AString (dom_value (node w)); AEvent EChange] in
  let n1 := node_after onChangeValue a1 (node w) in
  let f2 := props !! "onChange" in
  let a2 := [AEvent EChange] in
  onChange props onChangeValue w =
  match thrown_by onChangeValue a1 (node w) with
  | Some ex =>
      (Throw ex,
       {| node := n1; timers := timers w;
          calls := calls w ++ call_of "onChangeValue" onChangeValue a1 |})
  | None =>
      (completion (thrown_by f2 a2 n1),
       {| node := node_after f2 a2 n1; timers := timers w;
          calls := calls w ++ call_of "onChangeValue" onChangeValue a1 ++
                   call_of "onChange" f2 a2 |})
  end.
Proof.
  destruct w as [n ts cs]. cbn zeta. unfold_full.
  destruct onChangeValue as [[f|s]|], (props !! "onChange") as [[g|t]|];
    run_calls; rewrite <- ?app_assoc, ?app_nil_r; reflexivity.
Qed.

(** Key-up: the caller's [onKeyUp], then [onEnter] on Enter, then
    [onEscape] on Escape, each on the state the one before left, up to the
    first that throws. *)
Lemma onKeyUp_full props onEnter onEscape e w :
  let f0 := props !! "onKeyUp" in
  let a0 := [AEvent (EKeyboard e)] in
  let n0 := node_after f0 a0 (node w) in
  let f1 := if String.eqb (key e) "Enter" then onEnter else None in
  let a1 := [AString (dom_value n0); AEvent (EKeyboard e)] in
  let n1 := node_after f1 a1 n0 in
  let f2 := if String.eqb (key e) "Escape" then onEscape else None in
  let a2 := [AString (dom_value n1); AEvent (EKeyboard e)] in
  onKeyUp props onEnter onEscape e w =
  match thrown_by f0 a0 (node w) with
  | Some ex =>
      (Throw ex,
       {| node := n0; timers := timers w;
          calls := calls w ++ call_of "onKeyUp" f0 a0 |})
  | None =>
      match thrown_by f1 a1 n0 with
      | Some ex =>
          (Throw ex,
           {| node := n1; timers := timers w;
              calls := calls w ++ call_of "onKeyUp" f0 a0 ++
                       call_of "onEnter" f1 a1 |})
      | None =>
          (completion (thrown_by f2 a2 n1),
           {| node := node_after f2 a2 n1; timers := timers w;
              calls := calls w ++ call_of "onKeyUp" f0 a0 ++
                       call_of "onEnter" f1 a1 ++
                       call_of "onEscape" f2 a2 |})
      end
  end.
Proof.
  destruct w as [n ts cs]. cbn zeta. unfold_full.
  destruct (props !! "onKeyUp") as [[f|s]|],
    (String.eqb (key e) "Enter"), (String.eqb (key e) "Escape"),
    onEnter as [[f1|s1]|], onEscape as [[f2|s2]|];
    run_calls; rewrite <- ?app_assoc, ?app_nil_r; reflexivity.
Qed.

(** The deferred callback. *)
Lemma run_closure_full x w :
  let pos := cursorPos x (dom_scrollWidth (node w)) (dom_clientWidth (node w))
               (dom_value (node w)) in
  run_closure (CursorFix x) w =
  match dom_setSelectionRange pos pos (node w) with
  | inr n' =>
      (Return tt,
       {| node := n'; timers := timers w;
          calls := calls w ++ [Call_setSelectionRange pos pos] |})
  | inl _ =>
      (Return tt,
       {| node := dom_focus (node w); timers := timers w;
          calls := calls w ++ [Call_setSelectionRange pos pos; Call_focus] |})
  end.
Proof.
  destruct w as [n ts cs]. cbn zeta. unfold_full. cbn [node timers calls].
  destruct (dom_setSelectionRange _ _ n); cbn;
    rewrite <- ?app_assoc; reflexivity.
Qed.

Lemma run_closure_full_returns c w : fst (run_closure c w) = Return tt.
Proof.
  destruct c as [x]. rewrite run_closure_full. cbn zeta.
  now destruct (dom_setSelectionRange _ _ _).
Qed.

Lemma fire_onClick_full (isFirefoxBrowser : bool) all e w :
  fire isFirefoxBrowser (Input all) "onClick" (EMouse e) w =
  handleClick isFirefoxBrowser (rest_props all) e w.
Proof. unfold fire. now rewrite Input_onClick. Qed.

Lemma fire_onKeyUp_full (isFirefoxBrowser : bool) all e w :
  fire isFirefoxBrowser (Input all) "onKeyUp" (EKeyboard e) w =
  onKeyUp (rest_props all) (all !! "onEnter") (all !! "onEscape") e w.
Proof. unfold fire. now rewrite Input_onKeyUp. Qed.

Lemma fire_onBlur_full (isFirefoxBrowser : bool) all w :
  fire isFirefoxBrowser (Input all) "onBlur" EFocus w =
  onBlur (rest_props all) (all !! "onUpdate") w.
Proof. unfold fire. now rewrite Input_onBlur. Qed.

Lemma fire_onChange_full (isFirefoxBrowser : bool) all w :
  fire isFirefoxBrowser (Input all) "onChange" EChange w =
  onChange (rest_props all) (all !! "onChangeValue") w.
Proof. unfold fire. now rewrite Input_onChange. Qed.

(** A prop that went through the spread: the caller's function is called
    with the event. *)
Lemma fire_passed_full (isFirefoxBrowser : bool) all name ev w :
  ~ In name ["onClick"; "onKeyUp"; "onBlur"; "onChange";
             "ref"; "onEnter"; "onEscape"; "onChangeValue"; "onUpdate";
             "className"] ->
  fire isFirefoxBrowser (Input all) name ev w =
  (completion (thrown_by (all !! name) [AEvent ev] (node w)),
   {| node := node_after (all !! name) [AEvent ev] (node w);
      timers := timers w;
      calls := calls w ++ call_of name (all !! name) [AEvent ev] |}).
Proof.
  intros Hn. unfold fire.
  rewrite Input_other by (cbn in *; tauto).
  rewrite rest_props_lookup by (cbn in *; tauto).
  destruct w as [n ts cs].
  destruct (all !! name) as [[g|s]|]; unfold_full.
  - run_calls; reflexivity.
  - cbn. now rewrite app_nil_r.
  - repeat case_decide; subst; cbn in Hn; try tauto.
    cbn. now rewrite app_nil_r.
Qed.

Lemma invocations_app_full (slot : string) (tr1 tr2 : list Call) :
  invocations slot (tr1 ++ tr2) = invocations slot tr1 ++ invocations slot tr2.
Proof.
  induction tr1 as [|c tr1 IH]; [reflexivity |].
  destruct c; cbn; try exact IH.
  destruct (String.eqb slot0 slot); cbn; now rewrite IH.
Qed.

Lemma invocations_call_of_full (slot slot' : string) (f : option PropValue)
    (args : list Arg) :
  invocations slot (call_of slot' f args) =
  if String.eqb slot' slot then
    match f with
    | Some (Fn g) => [(g, args)]
    | _ => []
    end
  else [].
Proof.
  unfold call_of. destruct f as [[g|s]|]; cbn;
    now destruct (String.eqb slot' slot).
Qed.

End FullHandlers.

(** ** The claims that need the full reading *)

(** C3, amended.  When [setSelectionRange] throws in the deferred callback,
    the exception is caught and the callback falls back to [input.focus()];
    no exception leaves the callback, whatever the node.  The initialiser of
    [isFirefoxBrowser] handles a failure too: it never throws, gives [false]
    when reading the user agent throws, and otherwise tells whether the
    lower-cased user agent holds "firefox".  An exception thrown by a
    function of the caller is not handled: it leaves the handler that made
    the call. *)
Theorem setSelectionRange_failure_is_caught {Node : Type} `{Browser Node}
    `{Caller Node} (x : number) (w : @World Node) (ex : Exn) :
  let pos := cursorPos x (dom_scrollWidth (node w)) (dom_clientWidth (node w))
               (dom_value (node w)) in
  dom_setSelectionRange pos pos (node w) = inl ex ->
  run_closure (CursorFix x) w =
    (Return tt,
     {| node := dom_focus (node w); timers := timers w;
        calls := calls w ++ [Call_setSelectionRange pos pos; Call_focus] |}) /\
  (forall c (w' : @World Node), fst (run_closure c w') = Return tt) /\
  (forall navigator, exists b, isFirefoxBrowser_init navigator = Return b) /\
  (forall nav e,
     userAgent nav = Throw e -> isFirefoxBrowser_init (Some nav) = Return false) /\
  (forall nav ua,
     userAgent nav = Return ua ->
     isFirefoxBrowser_init (Some nav) =
     Return (includes (toLowerCase (default "" ua)) "firefox")) /\
  (forall (isFirefoxBrowser : bool) (all : gmap string PropValue)
          (w' : @World Node) (thrown : Exn),
     (forall e,
        thrown_by (all !! "onClick") [AEvent (EMouse e)] (node w') = Some thrown ->
        fst (fire isFirefoxBrowser (Input all) "onClick" (EMouse e) w') =
        Throw thrown) /\
     (forall e,
        thrown_by (all !! "onKeyUp") [AEvent (EKeyboard e)] (node w') = Some thrown ->
        fst (fire isFirefoxBrowser (Input all) "onKeyUp" (EKeyboard e) w') =
        Throw thrown) /\
     (thrown_by (all !! "onUpdate")
        [AString (dom_value (node w')); AEvent EFocus] (node w') = Some thrown ->
      fst (fire isFirefoxBrowser (Input all) "onBlur" EFocus w') = Throw thrown) /\
     (thrown_by (all !! "onChangeValue")
        [AString (dom_value (node w')); AEvent EChange] (node w') = Some thrown ->
      fst (fire isFirefoxBrowser (Input all) "onChange" EChange w') =
      Throw thrown)).
Proof.
  intros pos E. split; [| split; [| split; [| split; [| split]]]].
  - rewrite run_closure_full. cbn zeta. fold pos. now rewrite E.
  - intros c w'. apply run_closure_full_returns.
  - apply isFirefoxBrowser_init_returns.
  - apply isFirefoxBrowser_init_catches.
  - intros [u] ua E'. cbn [userAgent] in E'. subst u.
    unfold isFirefoxBrowser_init, try_catch_pure. cbn [userAgent].
    destruct ua as [s|]; [| reflexivity]. cbn [default]. now rewrite or_empty.
  - intros isFirefoxBrowser all w' thrown. split; [| split; [| split]].
    + intros e T. rewrite fire_onClick_full, handleClick_full. cbn zeta.
      rewrite rest_props_lookup by (cbn; intuition discriminate).
      now rewrite T.
    + intros e T. rewrite fire_onKeyUp_full, onKeyUp_full. cbn zeta.
      rewrite rest_props_lookup by (cbn; intuition discriminate).
      now rewrite T.
    + intros T. rewrite fire_onBlur_full, onBlur_full. cbn zeta.
      now rewrite T.
    + intros T. rewrite fire_onChange_full, onChange_full. cbn zeta.
      now rewrite T.
Qed.

Lemma setSelectionRange_failure_is_caught_witness :
  run_closure (CursorFix (Num 50)) (world_of number_node) =
    (Return tt,
     {| node := dom_focus number_node; timers := [];
        calls := [Call_setSelectionRange (Num 3) (Num 3); Call_focus] |}).
Proof.
  exact (proj1 (setSelectionRange_failure_is_caught (Num 50)
                  (world_of number_node)
                  (DOMException "InvalidStateError") eq_refl)).
Defined.

(** C6, the part that fails.  When the caller's [onKeyUp] throws, [onEnter]
    is not called although the key is Enter and [onEnter] is given; and an
    event other than the four reaches a handler, the caller's own, which
    the spread handed to the element. *)
Lemma onEnter_skipped_when_onKeyUp_throws :
  throwing_props !! "onEnter" = Some (Fn (Function 3)) /\
  fire false (Input throwing_props) "onKeyUp" (EKeyboard {| key := "Enter" |})
    (world_of text_node) =
    (Throw (TypeError "callback failed"),
     {| node := text_node; timers := [];
        calls := [Call_prop "onKeyUp" (Function 0)
                    [AEvent (EKeyboard {| key := "Enter" |})]] |}) /\
  made (fire false (Input sample_props) "onFocus" EFocus) (world_of text_node) =
    [Call_prop "onFocus" (Function 5) [AEvent EFocus]] /\
  ~ onEnter_whenever_Enter /\
  ~ only_four_events_handled.
Proof.
  split; [reflexivity | split; [vm_compute; reflexivity |]].
  split; [vm_compute; reflexivity | split].
  - intros Hc.
    destruct (Hc SimpleNode _ _ throwing_props {| key := "Enter" |}
                (world_of text_node) (Function 3) eq_refl eq_refl)
      as [value E].
    vm_compute in E. discriminate E.
  - intros Hc.
    specialize (Hc SimpleNode _ _ sample_props "onFocus" EFocus
                  (world_of text_node)).
    assert (F : made (fire false (Input sample_props) "onFocus" EFocus)
                  (world_of text_node) = [])
      by (apply Hc; cbn; intuition discriminate).
    vm_compute in F. discriminate F.
Qed.

Lemma Escape_is_not_Enter (k : string) :
  String.eqb k "Escape" = true -> String.eqb k "Enter" = false.
Proof. intros E. apply String.eqb_eq in E. now subst k. Qed.

(** C6, amended.  [Input] supplies a handler of its own for [onClick],
    [onKeyUp], [onBlur] and [onChange] and for no other name; a handler the
    caller passes for any other event is handed to the element as it came
    and is called when that event fires.  On key-up, once the caller's
    [onKeyUp] (if there is one) has returned, [onEnter] is called, once and
    with the value the input then has, exactly when the key is Enter and
    [onEnter] is given, and [onEscape] exactly when the key is Escape and
    [onEscape] is given; when the caller's [onKeyUp] throws, neither is
    called and the exception leaves the handler. *)
Theorem Input_wires_four_handlers {Node : Type} `{Browser Node}
    `{Caller Node} (isFirefoxBrowser : bool) (all : gmap string PropValue) :
  (forall name,
     (exists h, Input all !! name = Some (Handler h)) <->
     In name ["onClick"; "onKeyUp"; "onBlur"; "onChange"]) /\
  (forall name,
     ~ In name ["onClick"; "onKeyUp"; "onBlur"; "onChange";
                "ref"; "onEnter"; "onEscape"; "onChangeValue"; "onUpdate";
                "className"] ->
     Input all !! name = Passed <$> all !! name /\
     forall ev (w : @World Node),
       made (fire isFirefoxBrowser (Input all) name ev) w =
       call_of name (all !! name) [AEvent ev]) /\
  (forall (e : KeyboardEvent) (w : @World Node),
     let run := fire isFirefoxBrowser (Input all) "onKeyUp" (EKeyboard e) in
     let tr := made run w in
     let a0 := [AEvent (EKeyboard e)] in
     let n0 := node_after (all !! "onKeyUp") a0 (node w) in
     match thrown_by (all !! "onKeyUp") a0 (node w) with
     | Some ex =>
         fst (run w) = Throw ex /\
         invocations "onEnter" tr = [] /\ invocations "onEscape" tr = []
     | None =>
         invocations "onEnter" tr =
           (if String.eqb (key e) "Enter" then
              match all !! "onEnter" with
              | Some (Fn f) =>
                  [(f, [AString (dom_value n0); AEvent (EKeyboard e)])]
              | _ => []
              end
            else []) /\
         invocations "onEscape" tr =
           (if String.eqb (key e) "Escape" then
              match all !! "onEscape" with
              | Some (Fn f) =>
                  [(f, [AString (dom_value n0); AEvent (EKeyboard e)])]
              | _ => []
              end
            else [])
     end).
Proof.
  split; [| split].
  - intros name. split.
    + intros [h E]. apply Input_handler_inv in E. cbn.
      destruct E as [[-> _] | [[-> _] | [[-> _] | [-> _]]]]; tauto.
    + cbn. intros [<- | [<- | [<- | [<- | []]]]]; eexists.
      * apply Input_onClick.
      * apply Input_onKeyUp.
      * apply Input_onBlur.
      * apply Input_onChange.
  - intros name Hn. split.
    + rewrite Input_other by (cbn in *; tauto).
      rewrite rest_props_lookup by (cbn in *; tauto).
      destruct (all !! name); [reflexivity |].
      repeat case_decide; subst; cbn in Hn; tauto || reflexivity.
    + intros ev w.
      exact (made_of_full _ _ _ _ _ _
               (fire_passed_full isFirefoxBrowser all name ev w Hn)).
  - intros e w. cbn zeta.
    pose proof (onKeyUp_full (rest_props all) (all !! "onEnter")
                  (all !! "onEscape") e w) as E.
    cbn zeta in E.
    rewrite <- (fire_onKeyUp_full isFirefoxBrowser) in E.
    rewrite rest_props_lookup in E by (cbn; intuition discriminate).
    destruct (thrown_by (all !! "onKeyUp") _ (node w)) as [ex|].
    + rewrite (made_of_full _ _ _ _ _ _ E), E.
      rewrite !invocations_call_of_full. now cbn.
    + destruct (String.eqb (key e) "Escape") eqn:Esc.
      * rewrite (Escape_is_not_Enter _ Esc) in *. cbn in E.
        rewrite (made_of_full _ _ _ _ _ _ E).
        rewrite !invocations_app_full, !invocations_call_of_full. now cbn.
      * destruct (thrown_by _ _ _) in E;
          rewrite (made_of_full _ _ _ _ _ _ E);
          rewrite !invocations_app_full, !invocations_call_of_full; cbn;
          rewrite ?app_nil_r; split; try reflexivity;
          now destruct (String.eqb (key e) "Enter").
Qed.

(** C9, the part that fails.  When [onUpdate] throws, the caller's [onBlur]
    is given and the blur event fires, yet [onBlur] is not called; the same
    goes for [onChange] behind a throwing [onChangeValue]. *)
Lemma onBlur_skipped_when_onUpdate_throws :
  throwing_props !! "onBlur" = Some (Fn (Function 4)) /\
  fire false (Input throwing_props) "onBlur" EFocus (world_of text_node) =
    (Throw (TypeError "callback failed"),
     {| node := text_node; timers := [];
        calls := [Call_prop "onUpdate" (Function 0)
                    [AString "hello"; AEvent EFocus]] |}) /\
  invocations "onChange"
    (made (fire false (Input throwing_props) "onChange" EChange)
       (world_of text_node)) = [] /\
  ~ onBlur_always_called_once.
Proof.
  split; [reflexivity | split; [vm_compute; reflexivity |]].
  split; [vm_compute; reflexivity |].
  intros Hc.
  specialize (Hc SimpleNode _ _ throwing_props (world_of text_node)
                (Function 4) eq_refl).
  vm_compute in Hc. discriminate Hc.
Qed.

(** C9, amended.  The handlers [Input] puts over the caller's [onClick],
    [onKeyUp], [onBlur] and [onChange] still call the caller's.  The
    caller's [onClick] is called exactly once per click, after the Firefox
    workaround has been scheduled, and the caller's [onKeyUp] exactly once
    per key-up, before [onEnter] and [onEscape].  The caller's [onBlur] is
    called exactly once per blur, after [onUpdate], provided [onUpdate]
    returns, and the caller's [onChange] exactly once per change, after
    [onChangeValue], provided [onChangeValue] returns; when [onUpdate] or
    [onChangeValue] throws, the caller's handler behind it is not called. *)
Theorem caller_handlers_still_run {Node : Type} `{Browser Node}
    `{Caller Node} (isFirefoxBrowser : bool) (all : gmap string PropValue)
    (w : @World Node) :
  let once slot (ev : Event) (tr : list Call) :=
    invocations slot tr =
    match all !! slot with
    | Some (Fn f) => [(f, [AEvent ev])]
    | _ => []
    end in
  (forall e : MouseEvent,
     let tr := made (fire isFirefoxBrowser (Input all) "onClick" (EMouse e)) w in
     let x := js_sub (clientX e) (dom_rect_left (node w)) in
     tr = (if isFirefoxBrowser
           then [Call_getBoundingClientRect; Call_setTimeout (CursorFix x) 0]
           else []) ++
          call_of "onClick" (all !! "onClick") [AEvent (EMouse e)] /\
     once "onClick" (EMouse e) tr) /\
  (forall e : KeyboardEvent,
     let tr := made (fire isFirefoxBrowser (Input all) "onKeyUp" (EKeyboard e)) w in
     (exists rest,
        tr = call_of "onKeyUp" (all !! "onKeyUp") [AEvent (EKeyboard e)] ++ rest /\
        Forall (fun c => exists f args,
                  c = Call_prop "onEnter" f args \/
                  c = Call_prop "onEscape" f args) rest) /\
     once "onKeyUp" (EKeyboard e) tr) /\
  (let tr := made (fire isFirefoxBrowser (Input all) "onBlur" EFocus) w in
   let a1 := [AString (dom_value (node w)); AEvent EFocus] in
   match thrown_by (all !! "onUpdate") a1 (node w) with
   | None =>
       tr = call_of "onUpdate" (all !! "onUpdate") a1 ++
            call_of "onBlur" (all !! "onBlur") [AEvent EFocus] /\
       once "onBlur" EFocus tr
   | Some ex =>
       tr = call_of "onUpdate" (all !! "onUpdate") a1 /\
       invocations "onBlur" tr = [] /\
       fst (fire isFirefoxBrowser (Input all) "onBlur" EFocus w) = Throw ex
   end) /\
  (let tr := made (fire isFirefoxBrowser (Input all) "onChange" EChange) w in
   let a1 := [AString (dom_value (node w)); AEvent EChange] in
   match thrown_by (all !! "onChangeValue") a1 (node w) with
   | None =>
       tr = call_of "onChangeValue" (all !! "onChangeValue") a1 ++
            call_of "onChange" (all !! "onChange") [AEvent EChange] /\
       once "onChange" EChange tr
   | Some ex =>
       tr = call_of "onChangeValue" (all !! "onChangeValue") a1 /\
       invocations "onChange" tr = [] /\
       fst (fire isFirefoxBrowser (Input all) "onChange" EChange w) = Throw ex
   end).
Proof.
  cbn zeta. split; [| split; [| split]].
  - intros e.
    pose proof (handleClick_full isFirefoxBrowser (rest_props all) e w) as E.
    cbn zeta in E. rewrite <- fire_onClick_full in E.
    rewrite rest_props_lookup in E by (cbn; intuition discriminate).
    rewrite (made_of_full _ _ _ _ _ _ E). split; [reflexivity |].
    rewrite invocations_app_full, invocations_call_of_full.
    now destruct isFirefoxBrowser.
  - intros e.
    pose proof (onKeyUp_full (rest_props all) (all !! "onEnter")
                  (all !! "onEscape") e w) as E.
    cbn zeta in E. rewrite <- (fire_onKeyUp_full isFirefoxBrowser) in E.
    rewrite rest_props_lookup in E by (cbn; intuition discriminate).
    assert (P : forall slot f args,
               slot = "onEnter" \/ slot = "onEscape" ->
               Forall (fun c => exists g a,
                         c = Call_prop "onEnter" g a \/
                         c = Call_prop "onEscape" g a)
                 (call_of slot f args)).
    { intros slot f args Hs. unfold call_of.
      destruct f as [[g|s]|]; repeat constructor.
      exists g, args. destruct Hs as [-> | ->]; tauto. }
    destruct (thrown_by (all !! "onKeyUp") _ (node w)) as [ex|];
      [| destruct (thrown_by _ _ _) in E];
      rewrite (made_of_full _ _ _ _ _ _ E).
    + split.
      * exists []. now rewrite app_nil_r.
      * rewrite invocations_call_of_full. reflexivity.
    + split.
      * eexists. split; [reflexivity |]. apply P. now left.
      * rewrite !invocations_app_full, !invocations_call_of_full.
        cbn. now rewrite app_nil_r.
    + split.
      * eexists. split; [reflexivity |].
        apply Forall_app. split; apply P; tauto.
      * rewrite !invocations_app_full, !invocations_call_of_full.
        cbn. now rewrite app_nil_r.
  - pose proof (onBlur_full (rest_props all) (all !! "onUpdate") w) as E.
    cbn zeta in E. rewrite <- (fire_onBlur_full isFirefoxBrowser) in E.
    rewrite rest_props_lookup in E by (cbn; intuition discriminate).
    destruct (thrown_by (all !! "onUpdate") _ (node w)) as [ex|];
      rewrite (made_of_full _ _ _ _ _ _ E).
    + rewrite E, invocations_call_of_full. now cbn.
    + split; [reflexivity |].
      now rewrite invocations_app_full, !invocations_call_of_full.
  - pose proof (onChange_full (rest_props all) (all !! "onChangeValue") w) as E.
    cbn zeta in E. rewrite <- (fire_onChange_full isFirefoxBrowser) in E.
    rewrite rest_props_lookup in E by (cbn; intuition discriminate).
    destruct (thrown_by (all !! "onChangeValue") _ (node w)) as [ex|];
      rewrite (made_of_full _ _ _ _ _ _ E).
    + rewrite E, invocations_call_of_full. now cbn.
    + split; [reflexivity |].
      now rewrite invocations_app_full, !invocations_call_of_full.
Qed.

(** ** Further properties, in the full reading *)

Section FullFrame.
Context {Node : Type} `{Browser Node} `{Caller Node}.
Implicit Types (w : @World Node) (props all : gmap string PropValue).

Lemma call_of_no_selection slot (f : option PropValue) args :
  existsb writes_selection (call_of slot f args) = false.
Proof. now destruct f as [[g|s]|]. Qed.

(** Where no function of the caller is called, nothing is thrown and the
    state stays. *)
Lemma quiet_call slot (f : option PropValue) args (n : Node) rest :
  existsb is_call_prop (call_of slot f args ++ rest) = false ->
  thrown_by f args n = None /\ node_after f args n = n /\
  existsb is_call_prop rest = false.
Proof. destruct f as [[g|s]|]; cbn; [discriminate | auto | auto]. Qed.

Lemma frame_bundle (m : M unit) w r n T D :
  m w = (r, {| node := n; timers := timers w ++ T; calls := calls w ++ D |}) ->
  existsb writes_selection D = false ->
  (existsb is_call_prop D = false -> r = Return tt /\ n = node w) ->
  existsb writes_selection (made m w) = false /\
  timers (snd (m w)) = timers w ++ scheduled m w /\
  scheduled m w = T /\
  (existsb is_call_prop (made m w) = false ->
   fst (m w) = Return tt /\ node (snd (m w)) = node w).
Proof.
  intros E S Q. unfold made, scheduled. rewrite E. cbn.
  rewrite !drop_app_length. auto.
Qed.

Lemma frame_bundle0 (m : M unit) w r n D :
  m w = (r, {| node := n; timers := timers w; calls := calls w ++ D |}) ->
  existsb writes_selection D = false ->
  (existsb is_call_prop D = false -> r = Return tt /\ n = node w) ->
  existsb writes_selection (made m w) = false /\
  timers (snd (m w)) = timers w ++ scheduled m w /\
  scheduled m w = [] /\
  (existsb is_call_prop (made m w) = false ->
   fst (m w) = Return tt /\ node (snd (m w)) = node w).
Proof.
  intros E S Q. apply (frame_bundle m w r n [] D); try assumption.
  now rewrite app_nil_r.
Qed.

Lemma frame_ret w :
  existsb writes_selection (made (ret tt) w) = false /\
  timers (snd (ret tt w)) = timers w ++ scheduled (ret tt) w /\
  scheduled (ret tt) w = [] /\
  (existsb is_call_prop (made (ret tt) w) = false ->
   fst (ret tt w) = Return tt /\ node (snd (ret tt w)) = node w).
Proof.
  apply (frame_bundle0 _ w (Return tt) (node w) []); [| reflexivity | tauto].
  destruct w. unfold ret. cbn. now rewrite app_nil_r.
Qed.

Lemma existsb_sel_app (l1 l2 : list Call) :
  existsb writes_selection l1 = false ->
  existsb writes_selection l2 = false ->
  existsb writes_selection (l1 ++ l2) = false.
Proof. intros E1 E2. now rewrite existsb_app, E1, E2. Qed.

Lemma frame_handler (isFirefoxBrowser : bool) (h : OwnHandler) ev w :
  let run := run_handler isFirefoxBrowser h ev in
  existsb writes_selection (made run w) = false /\
  timers (snd (run w)) = timers w ++ scheduled run w /\
  (scheduled run w = [] \/ exists props, h = H_handleClick props) /\
  (existsb is_call_prop (made run w) = false ->
   fst (run w) = Return tt /\ node (snd (run w)) = node w).
Proof.
  cbn zeta.
  assert (R : forall (m : M unit) T,
             (existsb writes_selection (made m w) = false /\
              timers (snd (m w)) = timers w ++ scheduled m w /\
              scheduled m w = T /\
              (existsb is_call_prop (made m w) = false ->
               fst (m w) = Return tt /\ node (snd (m w)) = node w)) ->
             T = [] \/ (exists props, h = H_handleClick props) ->
             existsb writes_selection (made m w) = false /\
             timers (snd (m w)) = timers w ++ scheduled m w /\
             (scheduled m w = [] \/ exists props, h = H_handleClick props) /\
             (existsb is_call_prop (made m w) = false ->
              fst (m w) = Return tt /\ node (snd (m w)) = node w)).
  { intros m T (A & B & C & D) HT.
    split; [exact A | split; [exact B | split; [rewrite C; exact HT | exact D]]]. }
  destruct h as [props|props onEnter onEscape|props onUpdate|props onChangeValue],
    ev as [m|k| |]; cbn [run_handler];
    try (apply (R _ []); [apply frame_ret | now left]).
  - eapply R; [| right; now exists props].
    eapply frame_bundle; [apply handleClick_full | |].
    + apply existsb_sel_app; [now destruct isFirefoxBrowser |].
      apply call_of_no_selection.
    + intros Q. rewrite existsb_app in Q. apply orb_false_elim in Q.
      destruct Q as [_ Q]. rewrite <- (app_nil_r (call_of _ _ _)) in Q.
      apply (quiet_call _ _ _ (node w)) in Q. destruct Q as (-> & -> & _).
      now split.
  - apply (R _ []); [| now left].
    pose proof (onKeyUp_full props onEnter onEscape k w) as E. cbn zeta in E.
    destruct (thrown_by (props !! "onKeyUp") _ (node w)) as [ex|] eqn:T0;
      [| destruct (thrown_by _ _ _) as [ex|] eqn:T1 in E];
      (eapply frame_bundle0; [exact E | |]);
      try (repeat apply existsb_sel_app; apply call_of_no_selection).
    + intros Q. rewrite <- (app_nil_r (call_of _ _ _)) in Q.
      apply (quiet_call _ _ _ (node w)) in Q. destruct Q as (Q & _).
      congruence.
    + intros Q. apply (quiet_call _ _ _ (node w)) in Q.
      destruct Q as (_ & N0 & Q). rewrite N0 in *.
      rewrite <- (app_nil_r (call_of _ _ _)) in Q.
      apply (quiet_call _ _ _ (node w)) in Q. destruct Q as (Q & _).
      congruence.
    + intros Q. apply (quiet_call _ _ _ (node w)) in Q.
      destruct Q as (_ & N0 & Q). rewrite N0 in *.
      apply (quiet_call _ _ _ (node w)) in Q.
      destruct Q as (_ & N1 & Q). rewrite N1 in *.
      rewrite <- (app_nil_r (call_of _ _ _)) in Q.
      apply (quiet_call _ _ _ (node w)) in Q. destruct Q as (-> & -> & _).
      now split.
  - apply (R _ []); [| now left].
    pose proof (onBlur_full props onUpdate w) as E. cbn zeta in E.
    destruct (thrown_by onUpdate _ (node w)) as [ex|] eqn:T0;
      (eapply frame_bundle0; [exact E | |]);
      try (repeat apply existsb_sel_app; apply call_of_no_selection).
    + intros Q. rewrite <- (app_nil_r (call_of _ _ _)) in Q.
      apply (quiet_call _ _ _ (node w)) in Q. destruct Q as (Q & _).
      congruence.
    + intros Q. apply (quiet_call _ _ _ (node w)) in Q.
      destruct Q as (_ & N0 & Q). rewrite N0 in *.
      rewrite <- (app_nil_r (call_of _ _ _)) in Q.
      apply (quiet_call _ _ _ (node w)) in Q. destruct Q as (-> & -> & _).
      now split.
  - apply (R _ []); [| now left].
    pose proof (onChange_full props onChangeValue w) as E. cbn zeta in E.
    destruct (thrown_by onChangeValue _ (node w)) as [ex|] eqn:T0;
      (eapply frame_bundle0; [exact E | |]);
      try (repeat apply existsb_sel_app; apply call_of_no_selection).
    + intros Q. rewrite <- (app_nil_r (call_of _ _ _)) in Q.
      apply (quiet_call _ _ _ (node w)) in Q. destruct Q as (Q & _).
      congruence.
    + intros Q. apply (quiet_call _ _ _ (node w)) in Q.
      destruct Q as (_ & N0 & Q). rewrite N0 in *.
      rewrite <- (app_nil_r (call_of _ _ _)) in Q.
      apply (quiet_call _ _ _ (node w)) in Q. destruct Q as (-> & -> & _).
      now split.
Qed.

Lemma call_optional_full slot (f : option PropValue) args w :
  call_optional slot f args w =
  (completion (thrown_by f args (node w)),
   {| node := node_after f args (node w); timers := timers w;
      calls := calls w ++ call_of slot f args |}).
Proof.
  destruct w as [n ts cs]. unfold_full.
  destruct f as [[g|s]|]; run_calls; rewrite ?app_nil_r; reflexivity.
Qed.

(** X7. Whatever event reaches the rendered input, under whatever prop
    name and whatever the caller's functions do, [Input] makes no
    [setSelectionRange] call while the event is handled, keeps every pending
    timer, and schedules one only for an event delivered to [onClick].
    Where no function of the caller is called, the handler returns and the
    DOM node is as it was: [Input] itself does not touch the node. *)
Theorem Input_handlers_never_select (isFirefoxBrowser : bool) all
    (name : string) (ev : Event) w :
  let run := fire isFirefoxBrowser (Input all) name ev in
  existsb writes_selection (made run w) = false /\
  timers (snd (run w)) = timers w ++ scheduled run w /\
  (scheduled run w = [] \/ name = "onClick") /\
  (existsb is_call_prop (made run w) = false ->
   fst (run w) = Return tt /\ node (snd (run w)) = node w).
Proof.
  cbn zeta. unfold fire.
  destruct (Input all !! name) as [[v|r|c|h]|] eqn:L.
  - pose proof (call_optional_full name (Some v) [AEvent ev] w) as E.
    destruct (frame_bundle0 _ w _ _ _ E) as (A & B & C & D).
    + apply call_of_no_selection.
    + intros Q. rewrite <- (app_nil_r (call_of _ _ _)) in Q.
      apply (quiet_call _ _ _ (node w)) in Q. destruct Q as (-> & -> & _).
      now split.
    + tauto.
  - destruct (frame_ret w) as (A & B & C & D). tauto.
  - destruct (frame_ret w) as (A & B & C & D). tauto.
  - destruct (frame_handler isFirefoxBrowser h ev w) as (A & B & C & D).
    split; [exact A | split; [exact B | split; [| exact D]]].
    destruct C as [C | [props ->]]; [now left | right].
    apply Input_handler_inv in L.
    destruct L as [[-> _] | [[_ L] | [[_ L] | [_ L]]]];
      [reflexivity | discriminate L ..].
  - destruct (frame_ret w) as (A & B & C & D). tauto.
Qed.

End FullFrame.

Section FullRuns.
Context {Node : Type} `{Browser Node} `{Caller Node}.
Implicit Types (w : @World Node) (all : gmap string PropValue).

(** X9. Clicks delivered in a row keep the timers already pending in
    front and, under Firefox, queue exactly one zero-delay cursor fix per
    click, whatever the caller's [onClick] does, even when it throws;
    outside Firefox they queue nothing. *)
Theorem clicks_queue_one_timer_each (isFirefoxBrowser : bool) all
    (es : list MouseEvent) w :
  exists new,
    timers (click_all isFirefoxBrowser all es w) = timers w ++ new /\
    length new = (if isFirefoxBrowser then length es else 0%nat) /\
    Forall (fun t => delay t = 0%Z) new.
Proof.
  revert w. induction es as [|e es IH]; intros w.
  - exists []. cbn. rewrite app_nil_r. now destruct isFirefoxBrowser.
  - unfold click_all in *. cbn [fold_left].
    rewrite fire_onClick_full.
    pose proof (handleClick_full isFirefoxBrowser (rest_props all) e w) as E.
    cbn zeta in E.
    set (w1 := snd (handleClick isFirefoxBrowser (rest_props all) e w)) in *.
    assert (T : timers w1 =
                timers w ++
                (if isFirefoxBrowser
                 then [{| callback :=
                            CursorFix (js_sub (clientX e)
                                         (dom_rect_left (node w)));
                          delay := 0 |}]
                 else []))
      by (unfold w1; now rewrite E).
    destruct (IH w1) as (new & I1 & I2 & I3).
    eexists. rewrite I1, T, <- app_assoc. split; [reflexivity |].
    destruct isFirefoxBrowser; cbn [app length].
    + split; [now rewrite I2 | now constructor].
    + now split.
Qed.

(** X18. Under Firefox, with no other timer pending, take a click whose
    caller's [onClick] (whether it returns or throws) leaves the node with a
    positive [clientWidth].  The click followed by one turn of the timer
    queue ends with the queue empty and a single [setSelectionRange] call,
    made after the caller's [onClick]; start and end of that call are the
    same integer, between 0 and the length of the value the input then
    has. *)
Theorem click_then_timer_sets_valid_selection all (e : MouseEvent) w :
  let w1 := snd (fire true (Input all) "onClick" (EMouse e) w) in
  let x := js_sub (clientX e) (dom_rect_left (node w)) in
  timers w = [] ->
  (0 < dom_clientWidth (node w1))%Z ->
  (Z.of_nat (String.length (dom_value (node w1))) < 2 ^ 53)%Z ->
  node w1 = node_after (all !! "onClick") [AEvent (EMouse e)] (node w) /\
  exists (n : Z) (w' : @World Node) (after : list Call),
    run_next_timer w1 = Some (Return tt, w') /\
    timers w' = [] /\
    calls w' =
      calls w ++
      [Call_getBoundingClientRect; Call_setTimeout (CursorFix x) 0] ++
      call_of "onClick" (all !! "onClick") [AEvent (EMouse e)] ++
      Call_setSelectionRange (Num (inject_Z n)) (Num (inject_Z n)) :: after /\
    existsb writes_selection after = false /\
    (0 <= n <= Z.of_nat (String.length (dom_value (node w1))))%Z.
Proof.
  cbn zeta. intros T.
  rewrite fire_onClick_full, handleClick_full. cbn zeta.
  rewrite rest_props_lookup by (cbn; intuition discriminate).
  cbn [snd node]. intros Hw Hlen. split; [reflexivity |].
  set (n1 := node_after _ _ _) in *.
  set (x := js_sub _ _).
  destruct (relativeX_bounds x (dom_clientWidth n1)) as (r & Hrel & Hlo & Hhi).
  { apply round64_not_NaN. }
  { now apply Z.lt_le_incl. }
  destruct (cursorPos_of_clamped x r (dom_scrollWidth n1) _ (dom_value n1)
              Hw Hlen Hrel Hlo Hhi)
    as (ratio & product & _ & _ & _ & _ & P0 & P1 & E).
  exists (Qfloor (product + (1 # 2))).
  unfold run_next_timer. cbn [timers]. rewrite T. cbn [app callback node calls].
  rewrite run_closure_full. cbn zeta. cbn [node timers calls]. rewrite E.
  destruct (dom_setSelectionRange _ _ n1); do 2 eexists;
    (split; [reflexivity |]); cbn [timers calls];
    (split; [reflexivity |]);
    (split; [rewrite <- !app_assoc; reflexivity |]);
    (split; [reflexivity | now apply round_bounds]).
Qed.

End FullRuns.

Lemma click_then_timer_sets_valid_selection_witness :
  exists (n : Z) (w' : @World SimpleNode) (after : list Call),
    run_next_timer
      (snd (fire true (Input rewriting_props) "onClick"
              (EMouse {| clientX := 25 |}) (world_of text_node))) =
      Some (Return tt, w') /\
    timers w' = [] /\
    calls w' =
      calls (world_of text_node) ++
      [Call_getBoundingClientRect;
       Call_setTimeout
         (CursorFix (js_sub (clientX {| clientX := 25 |})
                       (dom_rect_left (node (world_of text_node))))) 0] ++
      call_of "onClick" (rewriting_props !! "onClick")
        [AEvent (EMouse {| clientX := 25 |})] ++
      Call_setSelectionRange (Num (inject_Z n)) (Num (inject_Z n)) :: after /\
    existsb writes_selection after = false /\
    (0 <= n <=
     Z.of_nat (String.length
       (dom_value
          (node (snd (fire true (Input rewriting_props)
                        "onClick" (EMouse {| clientX := 25 |})
                        (world_of text_node)))))))%Z.
Proof.
  apply (click_then_timer_sets_valid_selection
           rewriting_props {| clientX := 25 |}
           (world_of text_node));
    vm_compute; reflexivity.
Defined.

(** The caller's [onClick] rewrote the value to "changed" before the timer
    ran: the position is computed from the new value. *)
Example timer_reads_the_node_of_its_turn :
  option_map (fun r => sn_selection (node (snd r)))
    (run_next_timer
       (snd (fire true (Input rewriting_props) "onClick"
               (EMouse {| clientX := 110 |}) (world_of text_node)))) =
  Some (Some (Num 7, Num 7)).
Proof. vm_compute. reflexivity. Qed.

(** ** The ref callback *)

Section RefFacts.
Context {Node : Type}.
Variable call_ref :
  Callback -> option Node -> gmap nat (option Node) ->
  option Exn * gmap nat (option Node).
Implicit Types (r : @Refs Node) (nodes : list (option Node)).

Lemma ref_updates_snoc ref nodes node r :
  ref_updates call_ref ref (nodes ++ [node]) r =
  snd (ref_callback call_ref ref node (ref_updates call_ref ref nodes r)).
Proof. unfold ref_updates. now rewrite fold_left_app. Qed.

Lemma ref_updates_objects ref nodes r (id : nat) :
  (forall f, ref <> Some (RefFunction f)) ->
  ref <> Some (RefObject id) ->
  ref_objects (ref_updates call_ref ref nodes r) !! id = ref_objects r !! id.
Proof.
  intros Hf Hne. revert r. induction nodes as [|n nodes IH]; intros r;
    [reflexivity |].
  unfold ref_updates in *. cbn [fold_left]. rewrite IH.
  destruct ref as [[f | id'] |]; cbn; try reflexivity.
  - now destruct (Hf f).
  - apply lookup_insert_ne. congruence.
Qed.

Lemma ref_updates_calls ref nodes r :
  ref_calls (ref_updates call_ref ref nodes r) =
  ref_calls r ++
  match ref with
  | Some (RefFunction f) => map (fun node => (f, node)) nodes
  | _ => []
  end.
Proof.
  revert r. induction nodes as [|n nodes IH]; intros r.
  - cbn. destruct ref as [[f | id] |]; now rewrite app_nil_r.
  - unfold ref_updates in *. cbn [fold_left]. rewrite IH.
    destruct ref as [[f | id] |]; cbn; try reflexivity.
    destruct (call_ref f n (ref_objects r)) as [[ex|] objs]; cbn;
      now rewrite <- app_assoc.
Qed.

(** X13. After React has attached or detached the element any number of
    times: with a ref object of the caller, or no ref, [inputRef] and the
    caller's object hold the last node passed and the caller's other ref
    objects are untouched; with a callback ref, the caller's function was
    called once per update, in order, and [inputRef] holds the last node
    when the last call returned, and was not updated when it threw. *)
Theorem refs_follow_the_last_node ref nodes (node : option Node) r :
  let before := ref_updates call_ref ref nodes r in
  let r' := ref_updates call_ref ref (nodes ++ [node]) r in
  match ref with
  | Some (RefObject id) =>
      inputRef r' = node /\ ref_objects r' !! id = Some node /\
      ref_calls r' = ref_calls r /\
      forall id', id' <> id -> ref_objects r' !! id' = ref_objects r !! id'
  | None =>
      inputRef r' = node /\ ref_calls r' = ref_calls r /\
      ref_objects r' = ref_objects r
  | Some (RefFunction f) =>
      ref_calls r' = ref_calls r ++ map (fun n => (f, n)) (nodes ++ [node]) /\
      match fst (call_ref f node (ref_objects before)) with
      | None => inputRef r' = node
      | Some ex =>
          inputRef r' = inputRef before /\
          fst (ref_callback call_ref ref node before) = Throw ex
      end
  end.
Proof.
  cbn zeta. destruct ref as [[f | id] |].
  - split; [apply ref_updates_calls |].
    rewrite ref_updates_snoc. cbn.
    destruct (call_ref f node _) as [[ex|] objs]; cbn; auto.
  - split; [| split; [| split]].
    + now rewrite ref_updates_snoc.
    + rewrite ref_updates_snoc. cbn. apply lookup_insert_eq.
    + rewrite ref_updates_calls. apply app_nil_r.
    + intros id' Hne. apply ref_updates_objects; congruence.
  - split; [| split].
    + now rewrite ref_updates_snoc.
    + rewrite ref_updates_calls. apply app_nil_r.
    + apply map_eq. intros id. apply ref_updates_objects; congruence.
Qed.

End RefFacts.


(** * Properties of the experimental-features panel *)

Import ExperimentalTsx.

Lemma run_OnChange (key : string) (b : bool) (s : State) (w : World) :
  run_closure (OnChange (SetPref key) b) (s, w) =
  (s, {| prefs := <[key := String_of_bool (negb b)]> (prefs w);
         localStorage := localStorage w |}).
Proof. reflexivity. Qed.

Lemma String_of_bool_values (b : bool) :
  String_of_bool b = "true" \/ String_of_bool b = "false".
Proof. destruct b; [now left | now right]. Qed.

Lemma toggle_many_last (key : string) (bs : list bool) (b : bool)
    (sw : State * World) :
  prefs (snd (toggle_many key (bs ++ [b]) sw)) !! key =
  Some (String_of_bool (negb b)).
Proof.
  unfold toggle_many. rewrite fold_left_app. cbn.
  apply lookup_insert_eq.
Qed.

(** C1. The checkbox of a feature toggle shows the flag's enabled state [b];
    its change handler stores [String(!b)] under [flags.<flagName>] and
    changes nothing else, so the value written is "true" or "false", and
    after any run of toggles the stored string is the one the last toggle
    wrote. *)
Theorem toggle_writes_negation (useFeatureFlag : string -> World -> bool)
    (p : FeatureToggleProps) (w : World) :
  let b := useFeatureFlag (flag p) w in
  let key := "flags." +:+ flag p in
  exists c rest,
    checkboxes (FeatureToggle useFeatureFlag p w) =
      (b, c, default false (disableToggle p)) :: rest /\
    (forall (s : State) (w' : World),
       run_closure c (s, w') =
         (s, {| prefs := <[key := String_of_bool (negb b)]> (prefs w');
                localStorage := localStorage w' |}) /\
       prefs (snd (run_closure c (s, w'))) !! key =
         Some (String_of_bool (negb b))) /\
    (String_of_bool (negb b) = "true" \/ String_of_bool (negb b) = "false") /\
    (forall (displayed : list bool) (last : bool) (sw : State * World),
       prefs (snd (toggle_many key (displayed ++ [last]) sw)) !! key =
         Some (String_of_bool (negb last))).
Proof.
  cbn zeta. eexists _, _. split; [| split; [| split]].
  - cbn. reflexivity.
  - intros s w'. rewrite run_OnChange. split; [reflexivity |].
    apply lookup_insert_eq.
  - apply String_of_bool_values.
  - intros displayed last sw. apply toggle_many_last.
Qed.

(** The checkboxes of the panel, collapsed and expanded. *)
Lemma checkboxes_collapsed (useFeatureFlag : string -> World -> bool)
    (w : World) :
  checkboxes (ExperimentalFeatures useFeatureFlag {| expanded := false |} w) = [].
Proof. reflexivity. Qed.

Lemma checkboxes_expanded (useFeatureFlag : string -> World -> bool)
    (w : World) :
  checkboxes (ExperimentalFeatures useFeatureFlag {| expanded := true |} w) =
  [toggle_row useFeatureFlag "goalTemplatesEnabled" w] ++
  (if showGoalTemplatesUI useFeatureFlag w
   then [toggle_row useFeatureFlag "goalTemplatesUIEnabled" w]
   else []) ++
  [toggle_row useFeatureFlag "actionTemplating" w;
   toggle_row useFeatureFlag "pluggyAiBankSync" w].
Proof.
  unfold ExperimentalFeatures, toggle_row.
  destruct (showGoalTemplatesUI useFeatureFlag w); reflexivity.
Qed.

Lemma showGoalTemplatesUI_true (useFeatureFlag : string -> World -> bool)
    (w : World) :
  showGoalTemplatesUI useFeatureFlag w = true <->
  useFeatureFlag "goalTemplatesUIEnabled" w = true \/
  (useFeatureFlag "goalTemplatesEnabled" w = true /\
   getItem "devEnableGoalTemplatesUI" w = Some "true").
Proof.
  unfold showGoalTemplatesUI.
  rewrite orb_true_iff, andb_true_iff, bool_decide_eq_true. reflexivity.
Qed.

(** C2. In the expanded panel the toggle row of [goalTemplatesUIEnabled] is
    rendered if and only if that flag is on, or [goalTemplatesEnabled] is on
    and [localStorage] holds exactly "true" under
    [devEnableGoalTemplatesUI]. *)
Theorem subfeature_row_condition (useFeatureFlag : string -> World -> bool)
    (w : World) :
  shows_toggle "goalTemplatesUIEnabled"
    (ExperimentalFeatures useFeatureFlag {| expanded := true |} w) = true <->
  useFeatureFlag "goalTemplatesUIEnabled" w = true \/
  (useFeatureFlag "goalTemplatesEnabled" w = true /\
   getItem "devEnableGoalTemplatesUI" w = Some "true").
Proof.
  rewrite <- showGoalTemplatesUI_true.
  unfold shows_toggle. rewrite checkboxes_expanded.
  destruct (showGoalTemplatesUI useFeatureFlag w); cbn; intuition congruence.
Qed.

(** C5. The state of [ExperimentalFeatures] is one boolean, [expanded],
    false at first.  Collapsed, the panel renders the link "I understand
    the risks, show experimental features" and no toggle; expanded, it
    renders the feature toggles and no such link. *)
Theorem expansion_flag_selects_view (useFeatureFlag : string -> World -> bool)
    (w : World) :
  (forall s : State, s = {| expanded := expanded s |}) /\
  expanded initial_state = false /\
  (links (ExperimentalFeatures useFeatureFlag {| expanded := false |} w) =
     [(OnClick_expand, ["I understand the risks, show experimental features"])] /\
   checkboxes (ExperimentalFeatures useFeatureFlag {| expanded := false |} w) = []) /\
  (links (ExperimentalFeatures useFeatureFlag {| expanded := true |} w) = [] /\
   checkboxes (ExperimentalFeatures useFeatureFlag {| expanded := true |} w) =
     [toggle_row useFeatureFlag "goalTemplatesEnabled" w] ++
     (if showGoalTemplatesUI useFeatureFlag w
      then [toggle_row useFeatureFlag "goalTemplatesUIEnabled" w]
      else []) ++
     [toggle_row useFeatureFlag "actionTemplating" w;
      toggle_row useFeatureFlag "pluggyAiBankSync" w]).
Proof.
  split; [| split; [| split; [| split]]].
  - now intros [b].
  - reflexivity.
  - split; reflexivity.
  - unfold ExperimentalFeatures.
    destruct (showGoalTemplatesUI useFeatureFlag w); reflexivity.
  - apply checkboxes_expanded.
Qed.

(** A closure leaves [expanded] as it is or sets it. *)
Lemma run_closure_expanded (c : Closure) (sw : State * World) :
  expanded (fst (run_closure c sw)) = expanded (fst sw) \/
  expanded (fst sw) = false /\ expanded (fst (run_closure c sw)) = true.
Proof.
  destruct c as [k b|]; cbn; [now left |].
  destruct (expanded (fst sw)); [now left | now right].
Qed.

Lemma step_expanded (useFeatureFlag : string -> World -> bool)
    (sw sw' : State * World) :
  step useFeatureFlag sw sw' ->
  expanded (fst sw) = true -> expanded (fst sw') = true.
Proof.
  intros St E. destruct St as [s w c _ | s w w']; [| exact E].
  destruct (run_closure_expanded c (s, w)) as [R | [R _]]; cbn in *; congruence.
Qed.

(** C8. The expansion flag only goes from false to true: a step of the
    component leaves it or sets it, so from an expanded panel every sequence
    of steps ends in an expanded panel. *)
Theorem expanded_never_collapses (useFeatureFlag : string -> World -> bool)
    (sw sw' : State * World) :
  steps useFeatureFlag sw sw' ->
  expanded (fst sw) = true ->
  expanded (fst sw') = true /\
  (forall c sw0,
     expanded (fst (run_closure c sw0)) = expanded (fst sw0) \/
     expanded (fst sw0) = false /\ expanded (fst (run_closure c sw0)) = true).
Proof.
  intros Sts E. split; [| exact run_closure_expanded].
  induction Sts as [sw | sw1 sw2 sw3 St _ IH]; [exact E |].
  apply IH. exact (step_expanded _ _ _ St E).
Qed.

Lemma expanded_never_collapses_witness :
  expanded
    (fst (run_closure (OnChange (SetPref "flags.actionTemplating") false)
            ({| expanded := true |}, sample_world))) = true.
Proof.
  refine (proj1 (expanded_never_collapses useFeatureFlag_pref
                   ({| expanded := true |}, sample_world) _ _ eq_refl)).
  eapply steps_step; [| apply steps_refl].
  apply (step_event useFeatureFlag_pref {| expanded := true |} sample_world
           (OnChange (SetPref "flags.actionTemplating") false)).
  vm_compute. tauto.
Defined.

(** ** The panel at work *)

(** With goal templates on and the developer switch set in [localStorage],
    the expanded panel offers the four toggles. *)
Example sample_panel_offers :
  offered (ExperimentalFeatures useFeatureFlag_pref {| expanded := true |}
             sample_world) =
  [OnChange (SetPref "flags.goalTemplatesEnabled") true;
   OnChange (SetPref "flags.goalTemplatesUIEnabled") false;
   OnChange (SetPref "flags.actionTemplating") false;
   OnChange (SetPref "flags.pluggyAiBankSync") false].
Proof. vm_compute. reflexivity. Qed.

(** Without the developer switch the subfeature row is not rendered. *)
Example no_switch_no_subfeature :
  shows_toggle "goalTemplatesUIEnabled"
    (ExperimentalFeatures useFeatureFlag_pref {| expanded := true |}
       {| prefs := prefs sample_world; localStorage := ∅ |}) = false.
Proof. vm_compute. reflexivity. Qed.

(** The collapsed panel offers the expansion link only. *)
Example collapsed_panel_offers :
  offered (ExperimentalFeatures useFeatureFlag_pref initial_state sample_world) =
  [OnClick_expand].
Proof. vm_compute. reflexivity. Qed.

(** Switching goal templates off stores "false", and the flag reads off. *)
Example switch_goal_templates_off :
  let sw := run_closure (OnChange (SetPref "flags.goalTemplatesEnabled") true)
              ({| expanded := true |}, sample_world) in
  prefs (snd sw) !! "flags.goalTemplatesEnabled" = Some "false" /\
  useFeatureFlag_pref "goalTemplatesEnabled" (snd sw) = false.
Proof. vm_compute. split; reflexivity. Qed.

(** * Further properties of the experimental-features panel *)

Lemma texts_View (cs : list Element) : texts (View cs) = flat_map texts cs.
Proof. induction cs as [|c cs IH]; cbn in *; congruence. Qed.

Lemma texts_label (cs : list Element) : texts (label cs) = flat_map texts cs.
Proof. induction cs as [|c cs IH]; cbn in *; congruence. Qed.

Lemma texts_Text (cs : list Element) : texts (Text cs) = flat_map texts cs.
Proof. induction cs as [|c cs IH]; cbn in *; congruence. Qed.

(** X14. A feature toggle shows the texts of its children, then
    "(give feedback)" exactly when a non-empty feedback link was given, then
    the error exactly when the toggle is disabled. *)
Theorem FeatureToggle_texts (useFeatureFlag : string -> World -> bool)
    (p : FeatureToggleProps) (w : World) :
  texts (FeatureToggle useFeatureFlag p w) =
  flat_map texts (children p) ++
  (if truthy (feedbackLink p) then ["(give feedback)"] else []) ++
  (if default false (disableToggle p) then flat_map texts (error p) else []).
Proof.
  unfold FeatureToggle. cbn zeta.
  rewrite texts_label. cbn [flat_map].
  rewrite texts_View, flat_map_app. cbn [flat_map].
  rewrite texts_View, flat_map_app.
  change (texts (Checkbox _ _ _)) with (@nil string).
  rewrite !app_nil_r, app_nil_l, <- app_assoc. f_equal.
  destruct (truthy (feedbackLink p)), (default false (disableToggle p));
    cbn [when flat_map app]; rewrite ?app_nil_r, ?texts_Text; reflexivity.
Qed.

Example sample_toggle_texts :
  texts (FeatureToggle useFeatureFlag_pref sample_toggle_props sample_world) =
  ["Rule action templating"; "(give feedback)"; "Not available"].
Proof. reflexivity. Qed.

(** ** What the panel writes *)

Lemma offered_collapsed (useFeatureFlag : string -> World -> bool) (w : World) :
  offered (ExperimentalFeatures useFeatureFlag {| expanded := false |} w) =
  [OnClick_expand].
Proof. reflexivity. Qed.

Lemma offered_expanded (useFeatureFlag : string -> World -> bool) (w : World)
    (c : Closure) :
  In c (offered (ExperimentalFeatures useFeatureFlag {| expanded := true |} w)) ->
  exists k b, In k panel_keys /\ c = OnChange (SetPref k) b.
Proof.
  unfold offered.
  replace (links (ExperimentalFeatures useFeatureFlag {| expanded := true |} w))
    with (@nil (Closure * list string))
    by (unfold ExperimentalFeatures;
        destruct (showGoalTemplatesUI useFeatureFlag w); reflexivity).
  rewrite checkboxes_expanded. unfold toggle_row, panel_keys.
  destruct (showGoalTemplatesUI useFeatureFlag w); intros Hin;
    vm_compute in Hin;
    repeat (destruct Hin as [<- | Hin];
            [do 2 eexists; split; [| reflexivity]; vm_compute; tauto |]);
    destruct Hin.
Qed.

(** X15. An event the panel offers never touches [localStorage].  From the
    collapsed panel it only expands the panel and writes nothing; from the
    expanded panel it stores "true" or "false" under the preference key of
    one of the four flags, changes no other preference, and leaves the panel
    expanded. *)
Theorem panel_events_write_flags_only
    (useFeatureFlag : string -> World -> bool) (s : State) (w : World)
    (c : Closure) :
  In c (offered (ExperimentalFeatures useFeatureFlag s w)) ->
  localStorage (snd (run_closure c (s, w))) = localStorage w /\
  (expanded s = false /\
     run_closure c (s, w) = ({| expanded := true |}, w) \/
   expanded s = true /\
     fst (run_closure c (s, w)) = s /\
     exists k b,
       In k panel_keys /\
       prefs (snd (run_closure c (s, w))) =
         <[k := String_of_bool b]> (prefs w) /\
       forall k', k' <> k ->
         prefs (snd (run_closure c (s, w))) !! k' = prefs w !! k').
Proof.
  destruct s as [[|]]; intros Hin.
  - destruct (offered_expanded _ _ _ Hin) as (k & b & Hk & ->).
    rewrite run_OnChange. cbn [fst snd prefs localStorage expanded].
    split; [reflexivity | right].
    split; [reflexivity | split; [reflexivity |]].
    exists k, (negb b). split; [exact Hk | split; [reflexivity |]].
    intros k' Hne. now apply lookup_insert_ne.
  - rewrite offered_collapsed in Hin. destruct Hin as [<- | []].
    cbn. split; [reflexivity | now left].
Qed.

Lemma panel_events_write_flags_only_witness :
  localStorage
    (snd (run_closure (OnChange (SetPref "flags.pluggyAiBankSync") false)
            ({| expanded := true |}, sample_world))) =
  localStorage sample_world.
Proof.
  refine (proj1 (panel_events_write_flags_only useFeatureFlag_pref
                   {| expanded := true |} sample_world
                   (OnChange (SetPref "flags.pluggyAiBankSync") false) _)).
  vm_compute. tauto.
Defined.

(** ** With a hook that reads the preference *)

Lemma useFeatureFlag_pref_reads : reads_pref useFeatureFlag_pref.
Proof.
  split; unfold useFeatureFlag_pref.
  - intros flagName w v E. rewrite E.
    apply bool_decide_ext. split; congruence.
  - intros flagName w w' E. now rewrite E.
Qed.

Lemma flag_key_inj (a b : string) : "flags." +:+ a = "flags." +:+ b -> a = b.
Proof. intros E. cbv [String.append] in E. congruence. Qed.

Lemma reads_after_write (useFeatureFlag : string -> World -> bool)
    (flagName : string) (b : bool) (w : World) :
  reads_pref useFeatureFlag ->
  useFeatureFlag flagName
    (run_setter (SetPref ("flags." +:+ flagName)) (String_of_bool b) w) = b.
Proof.
  intros [R _].
  rewrite (R flagName _ (String_of_bool b)) by apply lookup_insert_eq.
  now destruct b.
Qed.

Lemma reads_other_flag (useFeatureFlag : string -> World -> bool)
    (flagName other : string) (v : string) (w : World) :
  reads_pref useFeatureFlag -> other <> flagName ->
  useFeatureFlag other (run_setter (SetPref ("flags." +:+ flagName)) v w) =
  useFeatureFlag other w.
Proof.
  intros [_ R] Hne. apply R. cbn.
  apply lookup_insert_ne. intros E. apply flag_key_inj in E. congruence.
Qed.

(** X16. With a hook that reads a flag from its preference, changing a
    toggle's checkbox flips the state the flag shows, leaves every other
    flag as it was, and changing the re-rendered checkbox again brings the
    first state back. *)
Theorem toggle_flips_the_flag (useFeatureFlag : string -> World -> bool)
    (p : FeatureToggleProps) (s : State) (w : World) :
  reads_pref useFeatureFlag ->
  let change w0 :=
    match checkboxes (FeatureToggle useFeatureFlag p w0) with
    | (_, onChange, _) :: _ => snd (run_closure onChange (s, w0))
    | [] => w0
    end in
  useFeatureFlag (flag p) (change w) = negb (useFeatureFlag (flag p) w) /\
  useFeatureFlag (flag p) (change (change w)) = useFeatureFlag (flag p) w /\
  (forall other, other <> flag p ->
     useFeatureFlag other (change w) = useFeatureFlag other w).
Proof.
  intros R. cbv beta zeta.
  assert (C : forall w0,
             match checkboxes (FeatureToggle useFeatureFlag p w0) with
             | (_, onChange, _) :: _ => snd (run_closure onChange (s, w0))
             | [] => w0
             end =
             run_setter (SetPref ("flags." +:+ flag p))
               (String_of_bool (negb (useFeatureFlag (flag p) w0))) w0)
    by reflexivity.
  rewrite !C. split; [| split].
  - now apply reads_after_write.
  - rewrite !reads_after_write by exact R. apply negb_involutive.
  - intros other Hne. now apply reads_other_flag.
Qed.

Lemma toggle_flips_the_flag_witness :
  useFeatureFlag_pref "goalTemplatesEnabled"
    (snd (run_closure
            (OnChange (SetPref "flags.goalTemplatesEnabled") true)
            ({| expanded := true |}, sample_world))) = false.
Proof.
  exact (proj1 (toggle_flips_the_flag useFeatureFlag_pref
                  (toggle "goalTemplatesEnabled" None "Goal templates")
                  {| expanded := true |} sample_world
                  useFeatureFlag_pref_reads)).
Defined.

Lemma shows_subfeature_eq (useFeatureFlag : string -> World -> bool) (w : World) :
  shows_toggle "goalTemplatesUIEnabled"
    (ExperimentalFeatures useFeatureFlag {| expanded := true |} w) =
  showGoalTemplatesUI useFeatureFlag w.
Proof.
  unfold shows_toggle. rewrite checkboxes_expanded.
  now destruct (showGoalTemplatesUI useFeatureFlag w).
Qed.

(** X17. With a hook that reads a flag from its preference: when the
    subfeature row is shown only because [goalTemplatesUIEnabled] is on
    (goal templates are off, or the developer switch is not set), unticking
    its checkbox removes the row from the panel. *)
Theorem subfeature_toggle_removes_its_row
    (useFeatureFlag : string -> World -> bool) (w : World) :
  reads_pref useFeatureFlag ->
  useFeatureFlag "goalTemplatesUIEnabled" w = true ->
  useFeatureFlag "goalTemplatesEnabled" w = false \/
    getItem "devEnableGoalTemplatesUI" w <> Some "true" ->
  let c := OnChange (SetPref "flags.goalTemplatesUIEnabled") true in
  let panel := ExperimentalFeatures useFeatureFlag {| expanded := true |} in
  shows_toggle "goalTemplatesUIEnabled" (panel w) = true /\
  In c (offered (panel w)) /\
  shows_toggle "goalTemplatesUIEnabled"
    (panel (snd (run_closure c ({| expanded := true |}, w)))) = false.
Proof.
  intros R Hui Hoff. cbv zeta.
  assert (S : showGoalTemplatesUI useFeatureFlag w = true)
    by (unfold showGoalTemplatesUI; now rewrite Hui).
  split; [| split].
  - now rewrite shows_subfeature_eq.
  - unfold offered. rewrite checkboxes_expanded, S. unfold toggle_row.
    rewrite Hui. vm_compute. tauto.
  - rewrite shows_subfeature_eq, run_OnChange. cbn [snd negb].
    change {| prefs := <["flags.goalTemplatesUIEnabled" := String_of_bool false]> (prefs w);
              localStorage := localStorage w |}
      with (run_setter (SetPref ("flags." +:+ "goalTemplatesUIEnabled"))
              (String_of_bool false) w).
    unfold showGoalTemplatesUI.
    rewrite reads_after_write by exact R.
    rewrite reads_other_flag by (exact R || discriminate).
    cbn [orb]. destruct Hoff as [-> | Hdev]; [reflexivity |].
    apply andb_false_intro2. apply bool_decide_eq_false. exact Hdev.
Qed.

Lemma subfeature_toggle_removes_its_row_witness :
  shows_toggle "goalTemplatesUIEnabled"
    (ExperimentalFeatures useFeatureFlag_pref {| expanded := true |}
       (snd (run_closure (OnChange (SetPref "flags.goalTemplatesUIEnabled") true)
               ({| expanded := true |},
                {| prefs := {[ "flags.goalTemplatesUIEnabled" := "true" ]};
                   localStorage := ∅ |})))) = false.
Proof.
  refine (proj2 (proj2 (subfeature_toggle_removes_its_row useFeatureFlag_pref
                          {| prefs := {[ "flags.goalTemplatesUIEnabled" := "true" ]};
                             localStorage := ∅ |}
                          useFeatureFlag_pref_reads _ _))).
  - vm_compute. reflexivity.
  - left. vm_compute. reflexivity.
Defined.
